(** * llamaparse-go: the submit / poll / fetch client of [llamaparse.go]

    A shallow embedding of [createMultipartRequest], [getJobResult] and
    [Parse], and the properties of its error classification, its poll loop
    and its defaults.

    The Go code talks to the operating system (environment, clock, sleep),
    to the network (one [http.Client] per phase) and to the standard
    library ([http.NewRequest], [encoding/json], [mime/multipart]).  These
    are outside the repository: they appear here as an environment [Env] of
    oracles, and every effect the code performs is appended to the trace of
    an explicit [World], so that "no network call", "exactly one request"
    and "before the sleep" are statements about traces. *)

From Stdlib Require Import ZArith String Ascii List Bool Lia.
From Stdlib.Strings Require Import Byte.
From stdpp Require Import base gmap strings list.

Set Warnings "-register-all".

Local Open Scope Z_scope.
Local Open Scope string_scope.
Local Open Scope list_scope.

(** ** Data model *)

(** [type LlamaParseMode string]: any string is a mode for the Go type
    checker; the package names three. *)
Definition LlamaParseMode := string.

Definition MARKDOWN : LlamaParseMode := "markdown".
Definition TEXT : LlamaParseMode := "text".
Definition JSON : LlamaParseMode := "json".

Definition BASE_URL : string := "https://api.cloud.llamaindex.ai".
Definition DEFAULT_MAX_TIMEOUT_SECONDS : Z := 2000.
Definition DEFAULT_CHECK_INTERVAL_SECONDS : Z := 1.

(** Go's [error] values the code can return: the four package-level
    sentinels made with [errors.New], and the errors of the standard
    library, which the code hands on unchanged.  The latter are tagged by
    the call they come from; none of them is ever one of the sentinels. *)
Inductive error : Type :=
| ErrNoAPIKey
| ErrEmptyFile
| ErrParsingFailed
| ErrTimeoutReached
| WriterError (msg : string)      (* mime/multipart *)
| RequestError (msg : string)     (* http.NewRequest *)
| TransportError (msg : string)   (* http.Client.Do *)
| DecodeError (msg : string).     (* json.Decoder.Decode *)

(** A Go result pair [(v, err)]: [Ok v] is [(v, nil)], [Err e] is
    [(zero, e)]. *)
Inductive result (A : Type) : Type :=
| Ok (v : A)
| Err (e : error).
Arguments Ok {A} v.
Arguments Err {A} e.

(** What [encoding/json] stores in an [interface{}].  A number is kept as
    its literal: the code never looks inside one. *)
Inductive json : Type :=
| JNull
| JBool (b : bool)
| JNumber (literal : string)
| JString (s : string)
| JArray (items : list json)
| JObject (fields : list (string * json)).

(** [map[string]interface{}], the target of every [Decode] in the code. *)
Abbreviation json_map := (gmap string json).

(** [v, ok := x.(string)] on the value of a map index expression: a missing
    key gives the nil interface, for which the assertion fails like for any
    value that is not a string, leaving [v] the zero string. *)
Definition assert_string (x : option json) : string * bool :=
  match x with
  | Some (JString s) => (s, true)
  | _ => ("", false)
  end.

(** *** Multipart forms *)

Record Part : Type := mkPart {
  FormName : string;
  FileName : option string;
  Data : list byte
}.

(** A [multipart.Writer] over a [bytes.Buffer]: the boundary, the parts
    written so far (the last one is the open one) and whether the closing
    boundary was written. *)
Record Writer : Type := mkWriter {
  Boundary : string;
  Parts : list Part;
  Closed : bool
}.

(** *** HTTP *)

Record Request : Type := mkRequest {
  Method : string;
  URL : string;
  Header : gmap string (list string);
  ReqBody : option Writer
}.

Record Response : Type := mkResponse {
  StatusCode : Z;
  Body : string
}.

Record Client : Type := mkClient { Timeout : Z }.

Definition StatusOK : Z := 200.

(** ** The world *)

(** The effects of a run, in the order the code performs them. *)
Inductive Event : Type :=
| EvGetenv (name : string)
| EvNow (t : Z)
| EvSince (elapsed : Z)
| EvSleep (d : Z)
| EvDo (timeout : Z) (req : Request).

(** The clock (nanoseconds, as [time.Duration] counts) and the trace. *)
Record World : Type := mkWorld {
  now : Z;
  trace : list Event
}.

Definition log (ev : Event) (w : World) : World :=
  {| now := now w; trace := trace w ++ [ev] |}.

Definition advance (d : Z) (w : World) : World :=
  {| now := now w + d; trace := trace w |}.

(** What lies outside the program.  Every oracle may depend on the whole
    world, clock and history included. *)
Record Env : Type := mkEnv {
  (** [os.Getenv]: the empty string when the variable is not set. *)
  getenv : string -> string;
  (** the boundary [multipart.NewWriter] draws at random *)
  random_boundary : string;
  (** [http.NewRequest]: the error, if any, of parsing the URL *)
  url_error : string -> option string;
  (** the time that passes between a reading of the clock by [time.Now]
      and the caller's next reading: the monotonic clock counts
      nanoseconds and does not stand still from one call to the next *)
  clock_step : World -> positive;
  (** how much longer than asked [time.Sleep] sleeps *)
  sleep_lag : World -> Z -> N;
  (** one round trip of a client with the given timeout: its duration and
      either a transport error or the response *)
  round_trip : World -> Z -> Request -> N * (string + Response);
  (** [json.NewDecoder(body).Decode(&m)] for [m] a nil
      [map[string]interface{}]: a decoding error or the map *)
  json_decode : string -> string + json_map
}.

(** The requests put on the wire, in order. *)
Definition requests (tr : list Event) : list Request :=
  omap (fun ev => match ev with EvDo _ req => Some req | _ => None end) tr.

(** The sleeps, in order. *)
Definition sleeps (tr : list Event) : list Z :=
  omap (fun ev => match ev with EvSleep d => Some d | _ => None end) tr.

(** The client timeouts of the requests, in order. *)
Definition client_timeouts (tr : list Event) : list Z :=
  omap (fun ev => match ev with EvDo t _ => Some t | _ => None end) tr.

(** The environment variables read, in order. *)
Definition env_reads (tr : list Event) : list string :=
  omap (fun ev => match ev with EvGetenv n => Some n | _ => None end) tr.

(** ** Control flow

    A computation threads the world and either yields a value or leaves the
    enclosing construct.  A function is left by [return] (or, in the model
    only, by the poll loop running out of fuel); a loop body is left by
    [continue] or by leaving the function. *)

Inductive fn_exit : Type :=
| Return (r : result string)
| OutOfFuel.

Inductive loop_exit : Type :=
| Continue
| Leave (x : fn_exit).

Class Exits (X : Type) : Type := from_fn : fn_exit -> X.
#[global] Instance fn_exits : Exits fn_exit := fun x => x.
#[global] Instance loop_exits : Exits loop_exit := Leave.

Definition Go (X A : Type) : Type := World -> World * (X + A).

Definition pure {X A} (a : A) : Go X A := fun w => (w, inr a).

Definition bind {X A B} (m : Go X A) (k : A -> Go X B) : Go X B :=
  fun w =>
    match m w with
    | (w', inl x) => (w', inl x)
    | (w', inr a) => k a w'
    end.

Definition leave {X A} (x : X) : Go X A := fun w => (w, inl x).

(** [return v, err] *)
Definition return_ {X A} `{Exits X} (r : result string) : Go X A :=
  leave (from_fn (Return r)).

(** [if err != nil { return "", err }] *)
Definition try {X A} `{Exits X} (r : result A) : Go X A :=
  match r with
  | Ok a => pure a
  | Err e => return_ (Err e)
  end.

Notation "x <~ m ;; k" := (bind m (fun x => k))
  (at level 100, m at next level, right associativity).
Notation "m ;;; k" := (bind m (fun _ => k))
  (at level 100, right associativity).

(** [for { body }]: a body that never falls off its end.  [continue] starts
    the next pass; the model stops with [OutOfFuel] after [fuel] passes. *)
Fixpoint for_ever (fuel : nat) (body : Go loop_exit Empty_set)
  : Go fn_exit Empty_set :=
  fun w =>
    match fuel with
    | O => (w, inl OutOfFuel)
    | S fuel' =>
        match body w with
        | (w', inl Continue) => for_ever fuel' body w'
        | (w', inl (Leave x)) => (w', inl x)
        | (w', inr v) => match v with end
        end
    end.

(** [v, err := f(...)]: the callee's [return] is the caller's value. *)
Definition call (f : Go fn_exit Empty_set) : Go fn_exit (result string) :=
  fun w =>
    match f w with
    | (w', inl (Return r)) => (w', inr r)
    | (w', inl OutOfFuel) => (w', inl OutOfFuel)
    | (w', inr v) => match v with end
    end.

(** The outcome of a function: [None] when the model ran out of fuel. *)
Definition outcome (f : Go fn_exit Empty_set) (w : World)
  : World * option (result string) :=
  match f w with
  | (w', inl (Return r)) => (w', Some r)
  | (w', inl OutOfFuel) => (w', None)
  | (w', inr v) => match v with end
  end.

(** ** The standard library, as the code uses it *)

(** [time.Duration] is an [int64]: conversions and products wrap. *)
Definition wrap64 (z : Z) : Z := (z + 2 ^ 63) mod 2 ^ 64 - 2 ^ 63.

Definition Second : Z := 1000000000.

(** [time.Duration(n) * time.Second] for a Go [int] [n] *)
Definition seconds (n : Z) : Z := wrap64 (wrap64 n * Second).

(** The difference of two readings of the monotonic clock saturates at
    the ends of [int64]. *)
Definition saturate64 (z : Z) : Z := Z.max (- 2 ^ 63) (Z.min (2 ^ 63 - 1) z).

Module multipart.

(** Writing to a [bytes.Buffer] never returns an error, so the operations
    below return none either, except for a write with no part open, which
    a caller holding a part cannot do.  They keep the result type the
    code checks. *)

Definition NewWriter (boundary : string) : Writer :=
  {| Boundary := boundary; Parts := []; Closed := false |}.

(** Starts a new part, which closes the one before it. *)
Definition CreatePart (p : Part) (w : Writer) : result Writer :=
  Ok {| Boundary := Boundary w; Parts := Parts w ++ [p]; Closed := Closed w |}.

Definition CreateFormFile (fieldname filename : string) (w : Writer)
  : result Writer :=
  CreatePart {| FormName := fieldname; FileName := Some filename; Data := [] |} w.

(** [part.Write(data)] on the part created last *)
Definition Write (data : list byte) (w : Writer) : result Writer :=
  match reverse (Parts w) with
  | [] => Err (WriterError "multipart: no open part")
  | p :: before =>
      Ok {| Boundary := Boundary w;
            Parts := reverse before ++
                     [{| FormName := FormName p; FileName := FileName p;
                         Data := Data p ++ data |}];
            Closed := Closed w |}
  end.

Definition WriteField (fieldname value : string) (w : Writer) : result Writer :=
  match CreatePart {| FormName := fieldname; FileName := None; Data := [] |} w with
  | Err e => Err e
  | Ok w' => Write (list_byte_of_string value) w'
  end.

Definition FormDataContentType (w : Writer) : string :=
  "multipart/form-data; boundary=" +:+ Boundary w.

Definition Close (w : Writer) : result Writer :=
  Ok {| Boundary := Boundary w; Parts := Parts w; Closed := true |}.

End multipart.

Module http.

(** [req.Header.Set(key, value)]; every key the code sets is already in
    canonical form. *)
Definition Header_Set (key value : string) (req : Request) : Request :=
  {| Method := Method req; URL := URL req;
     Header := <[key := [value]]> (Header req);
     ReqBody := ReqBody req |}.

End http.

Section WithEnv.

Context (env : Env).

Definition os_Getenv {X} (name : string) : Go X string :=
  fun w => (log (EvGetenv name) w, inr (getenv env name)).

(** The reading is the clock's when the call is made; the caller goes on
    later. *)
Definition time_Now {X} : Go X Z :=
  fun w =>
    (advance (Z.pos (clock_step env w)) (log (EvNow (now w)) w),
     inr (now w)).

(** [time.Now().Sub(start)], on the clock as it is when the call is
    made. *)
Definition time_Since {X} (start : Z) : Go X Z :=
  fun w =>
    let elapsed := saturate64 (now w - start) in
    (log (EvSince elapsed) w, inr elapsed).

(** Sleeps for at least [d]; returns at once when [d] is not positive. *)
Definition time_Sleep {X} (d : Z) : Go X unit :=
  fun w =>
    (advance (Z.max 0 d + Z.of_N (sleep_lag env w d)) (log (EvSleep d) w),
     inr tt).

Definition http_NewRequest (method url : string) (body : option Writer)
  : result Request :=
  match url_error env url with
  | Some msg => Err (RequestError msg)
  | None => Ok {| Method := method; URL := url; Header := ∅; ReqBody := body |}
  end.

Definition client_Do {X} (client : Client) (req : Request)
  : Go X (result Response) :=
  fun w =>
    let '(took, reply) := round_trip env w (Timeout client) req in
    (advance (Z.of_N took) (log (EvDo (Timeout client) req) w),
     inr match reply with
         | inl msg => Err (TransportError msg)
         | inr resp => Ok resp
         end).

Definition json_Decode (body : string) : result json_map :=
  match json_decode env body with
  | inl msg => Err (DecodeError msg)
  | inr m => Ok m
  end.

End WithEnv.

(** ** The repository's functions *)

Section Llamaparse.

Context (env : Env).

(** [createMultipartRequest] (lines 36-64).  The body is the writer's
    buffer; a nil [language] is [None]. *)
Definition createMultipartRequest (file : list byte) (language : option string)
  : result (Writer * string) :=
  let writer := multipart.NewWriter (random_boundary env) in
  match multipart.CreateFormFile "file" "uploadfile" writer with
  | Err err => Err err
  | Ok writer =>
  match multipart.Write file writer with
  | Err err => Err err
  | Ok writer =>
  match
    match language with
    | Some l => multipart.WriteField "language" l writer
    | None => Ok writer
    end
  with
  | Err err => Err err
  | Ok writer =>
  let contentType := multipart.FormDataContentType writer in
  match multipart.Close writer with
  | Err err => Err err
  | Ok body => Ok (body, contentType)
  end end end end.

(** [for key, value := range headers { req.Header.Set(key, value) }] *)
Definition set_headers (headers : gmap string string) (req : Request) : Request :=
  map_fold http.Header_Set req headers.

(** One pass of the [for] loop of [getJobResult] (lines 76-140): its
    parameters are the variables the function sets up before the loop. *)
Definition getJobResult_pass (client : Client) (headers : gmap string string)
    (statusURL resultURL : string) (mode : LlamaParseMode)
    (timeout checkInterval start : Z) : Go loop_exit Empty_set :=
  elapsed <~ time_Since start ;;
  if (elapsed >? timeout)%Z then return_ (Err ErrTimeoutReached) else

  time_Sleep env checkInterval ;;;

  req <~ try (http_NewRequest env "GET" statusURL None) ;;
  let req := set_headers headers req in

  r <~ client_Do env client req ;;
  resp <~ try r ;;

  if negb (StatusCode resp =? StatusOK)%Z then leave Continue else

  statusResponse <~ try (json_Decode env (Body resp)) ;;

  let '(status, ok) := assert_string (statusResponse !! "status") in
  if negb ok || negb (String.eqb status "SUCCESS") then leave Continue else

  req <~ try (http_NewRequest env "GET" resultURL None) ;;
  let req := set_headers headers req in

  r <~ client_Do env client req ;;
  resp <~ try r ;;

  if negb (StatusCode resp =? StatusOK)%Z then return_ (Err ErrParsingFailed) else

  resultResponse <~ try (json_Decode env (Body resp)) ;;

  let '(result, ok) := assert_string (resultResponse !! mode) in
  if negb ok then return_ (Err ErrParsingFailed) else

  return_ (Ok result).

(** [getJobResult] (lines 66-142).  The deferred [resp.Body.Close()] run
    when the function returns; closing a body is not an event of the
    model.  [fuel] bounds the passes of the loop. *)
Definition getJobResult (fuel : nat) (apiKey baseUrl jobID : string)
    (mode : LlamaParseMode) (timeout checkInterval : Z)
  : Go fn_exit Empty_set :=
  let client := {| Timeout := timeout |} in
  let headers : gmap string string :=
    {[ "Authorization" := "Bearer " +:+ apiKey ]} in
  let statusURL := baseUrl +:+ "/api/parsing/job/" +:+ jobID in
  let resultURL :=
    baseUrl +:+ "/api/parsing/job/" +:+ jobID +:+ "/result/" +:+ mode in

  start <~ time_Now env ;;
  for_ever fuel
    (getJobResult_pass client headers statusURL resultURL mode
                       timeout checkInterval start).

(** [Parse] (lines 160-235).  A nil optional argument is [None]; [fuel]
    bounds the passes of the poll loop. *)
Definition Parse (fuel : nat) (file : list byte) (mode : LlamaParseMode)
    (apiKeyOptional languageOptional : option string)
    (timeoutSecondsOptional checkIntervalSecondsOptional : option Z)
  : Go fn_exit Empty_set :=
  if (length file =? 0)%nat then return_ (Err ErrEmptyFile) else

  apiKey <~
    match apiKeyOptional with
    | Some key => pure key
    | None =>
        apiKey <~ os_Getenv env "LLAMA_CLOUD_API_KEY" ;;
        if String.eqb apiKey "" then return_ (Err ErrNoAPIKey) else
        pure apiKey
    end ;;

  let url := BASE_URL +:+ "/api/parsing/upload" in

  bc <~ try (createMultipartRequest file languageOptional) ;;
  let '(body, contentType) := bc in

  req <~ try (http_NewRequest env "POST" url (Some body)) ;;

  let req := http.Header_Set "Authorization" ("Bearer " +:+ apiKey) req in
  let req := http.Header_Set "Content-Type" contentType req in

  let timeoutSeconds :=
    match timeoutSecondsOptional with
    | Some v => v
    | None => DEFAULT_MAX_TIMEOUT_SECONDS
    end in

  let client := {| Timeout := seconds timeoutSeconds |} in

  r <~ client_Do env client req ;;
  resp <~ try r ;;

  if negb (StatusCode resp =? StatusOK)%Z then return_ (Err ErrParsingFailed) else

  response <~ try (json_Decode env (Body resp)) ;;

  let '(jobID, ok) := assert_string (response !! "id") in
  if negb ok then return_ (Err ErrParsingFailed) else

  let checkIntervalSeconds :=
    match checkIntervalSecondsOptional with
    | Some v => v
    | None => DEFAULT_CHECK_INTERVAL_SECONDS
    end in

  r <~ call (getJobResult fuel apiKey BASE_URL jobID mode
                          (seconds timeoutSeconds)
                          (seconds checkIntervalSeconds)) ;;
  result <~ try r ;;

  return_ (Ok result).

End Llamaparse.

(** ** Vocabulary of the statements *)

(** The world after [k] passes of a loop body that all end in [continue],
    if they all do. *)
Fixpoint continued (k : nat) (body : Go loop_exit Empty_set) (w : World)
  : option World :=
  match k with
  | O => Some w
  | S k' =>
      match body w with
      | (w', inl Continue) => continued k' body w'
      | _ => None
      end
  end.

(** The results a pass can return once it is past its time check: any but
    the sentinels of the three checks made before. *)
Definition past_checks (r : result string) : Prop :=
  match r with
  | Err ErrTimeoutReached | Err ErrNoAPIKey | Err ErrEmptyFile => False
  | _ => True
  end.

(** The events one pass of the poll loop can add to the trace, with the way
    the pass ends: [t] is the client's timeout, [sreq] and [rreq] the
    status and the result request. *)
Inductive pass_events (t : Z) (sreq rreq : Request) (timeout ci : Z)
  : list Event -> loop_exit -> Prop :=
| pass_timeout e :
    timeout < e ->
    pass_events t sreq rreq timeout ci
      [EvSince e] (Leave (Return (Err ErrTimeoutReached)))
| pass_no_request e r :
    e <= timeout -> past_checks r ->
    pass_events t sreq rreq timeout ci
      [EvSince e; EvSleep ci] (Leave (Return r))
| pass_continue e :
    e <= timeout ->
    pass_events t sreq rreq timeout ci
      [EvSince e; EvSleep ci; EvDo t sreq] Continue
| pass_status e r :
    e <= timeout -> past_checks r ->
    pass_events t sreq rreq timeout ci
      [EvSince e; EvSleep ci; EvDo t sreq] (Leave (Return r))
| pass_fetch e r :
    e <= timeout -> past_checks r ->
    pass_events t sreq rreq timeout ci
      [EvSince e; EvSleep ci; EvDo t sreq; EvDo t rreq] (Leave (Return r)).

(** The events a run of the poll loop can add to the trace, with the way
    the run ends. *)
Inductive loop_events (t : Z) (sreq rreq : Request) (timeout ci : Z)
  : list Event -> fn_exit -> Prop :=
| loop_out_of_fuel :
    loop_events t sreq rreq timeout ci [] OutOfFuel
| loop_leave evs x :
    pass_events t sreq rreq timeout ci evs (Leave x) ->
    loop_events t sreq rreq timeout ci evs x
| loop_continue evs evs' x :
    pass_events t sreq rreq timeout ci evs Continue ->
    loop_events t sreq rreq timeout ci evs' x ->
    loop_events t sreq rreq timeout ci (evs ++ evs') x.

(** The credential [Parse] goes on with once it is past lines 165-174, the
    condition under which it gets past them, and the world it is in then. *)
Definition API_KEY_VARIABLE : string := "LLAMA_CLOUD_API_KEY".

Definition credential (env : Env) (apiKeyOptional : option string) : string :=
  match apiKeyOptional with
  | Some key => key
  | None => getenv env API_KEY_VARIABLE
  end.

Definition has_credential (env : Env) (apiKeyOptional : option string) : Prop :=
  apiKeyOptional = None -> getenv env API_KEY_VARIABLE <> "".

Definition after_credential (apiKeyOptional : option string) (w : World) : World :=
  match apiKeyOptional with
  | Some _ => w
  | None => log (EvGetenv API_KEY_VARIABLE) w
  end.

(** The reading of the environment that resolving the credential leaves
    in the trace. *)
Definition credential_events (apiKeyOptional : option string) : list Event :=
  match apiKeyOptional with
  | Some _ => []
  | None => [EvGetenv API_KEY_VARIABLE]
  end.

(** The request carries [apiKey] as its bearer credential. *)
Definition authorized (apiKey : string) (req : Request) : Prop :=
  Header req !! "Authorization" = Some ["Bearer " +:+ apiKey].

(** The status and the result request of [getJobResult]. *)
Definition status_request (apiKey baseUrl jobID : string) : Request :=
  {| Method := "GET";
     URL := baseUrl +:+ "/api/parsing/job/" +:+ jobID;
     Header := {[ "Authorization" := ["Bearer " +:+ apiKey] ]};
     ReqBody := None |}.

Definition result_request (apiKey baseUrl jobID : string)
    (mode : LlamaParseMode) : Request :=
  {| Method := "GET";
     URL := baseUrl +:+ "/api/parsing/job/" +:+ jobID +:+ "/result/" +:+ mode;
     Header := {[ "Authorization" := ["Bearer " +:+ apiKey] ]};
     ReqBody := None |}.

(** The events a run of [Parse] can add to the trace, with the way the run
    ends, for the optional credential it is given, the mode, the client
    timeout [t] and the poll interval [ci] it goes on with. *)
Inductive parse_events (env : Env) (apiKeyOptional : option string)
    (mode : LlamaParseMode) (t ci : Z) : list Event -> fn_exit -> Prop :=
| parse_empty_file :
    parse_events env apiKeyOptional mode t ci [] (Return (Err ErrEmptyFile))
| parse_no_key :
    apiKeyOptional = None ->
    parse_events env apiKeyOptional mode t ci
      [EvGetenv API_KEY_VARIABLE] (Return (Err ErrNoAPIKey))
| parse_no_request r :
    past_checks r ->
    parse_events env apiKeyOptional mode t ci
      (credential_events apiKeyOptional) (Return r)
| parse_uploaded upload r :
    authorized (credential env apiKeyOptional) upload ->
    past_checks r ->
    parse_events env apiKeyOptional mode t ci
      (credential_events apiKeyOptional ++ [EvDo t upload]) (Return r)
| parse_polled upload jobID start evs x :
    authorized (credential env apiKeyOptional) upload ->
    loop_events t
      (status_request (credential env apiKeyOptional) BASE_URL jobID)
      (result_request (credential env apiKeyOptional) BASE_URL jobID mode)
      t ci evs x ->
    parse_events env apiKeyOptional mode t ci
      (credential_events apiKeyOptional
       ++ EvDo t upload :: EvNow start :: evs) x.

(** The seconds [Parse] goes on with for an optional argument. *)
Definition or_default (d : Z) (optional : option Z) : Z :=
  match optional with
  | Some v => v
  | None => d
  end.

(** ** A mock of the service

    Concrete environments to run the functions in: a server that answers
    the three endpoints from a script, a clock that moves by the sleeps,
    by a fixed round-trip time and by 50 ns after a reading, and the
    answers of [encoding/json] on the bodies these servers send. *)

Module Mock.

Definition dq : string := String (ascii_of_nat 34) EmptyString.

Definition quoted (s : string) : string := dq +:+ s +:+ dq.

(** The text of the JSON object with one member, a string. *)
Definition object1 (key value : string) : string :=
  "{" +:+ quoted key +:+ ":" +:+ quoted value +:+ "}".

Definition ok (body : string) : string + Response :=
  inr {| StatusCode := 200; Body := body |}.

Definition job : string := "job1".

Definition status_url : string := BASE_URL +:+ "/api/parsing/job/" +:+ job.

(** What the server answers to the upload, to the n-th status request
    (from 1) and to the result request. *)
Record Server : Type := mkServer {
  on_upload : string + Response;
  on_status : nat -> string + Response;
  on_result : string + Response
}.

Definition polls_so_far (tr : list Event) : nat :=
  length (filter (fun req => String.eqb (URL req) status_url = true)
                 (requests tr)).

Definition serve (s : Server) (w : World) (req : Request) : string + Response :=
  if String.eqb (Method req) "POST" then on_upload s
  else if String.eqb (URL req) status_url
       then on_status s (S (polls_so_far (trace w)))
       else on_result s.

(** A truncated object, on which [Decode] fails. *)
Definition truncated : string := "{" +:+ quoted "id" +:+ ":".

(** [encoding/json] on the bodies used below.  A body outside the table
    is not used by any server here; it is given a decoding error. *)
Definition bodies : list (string * (string + json_map)) :=
  [ (object1 "id" job, inr {[ "id" := JString job ]});
    (object1 "status" "SUCCESS", inr {[ "status" := JString "SUCCESS" ]});
    (object1 "status" "PENDING", inr {[ "status" := JString "PENDING" ]});
    (object1 "status" "success", inr {[ "status" := JString "success" ]});
    (object1 "markdown" "hello", inr {[ "markdown" := JString "hello" ]});
    (object1 "text" "hello", inr {[ "text" := JString "hello" ]});
    ("{}", inr ∅);
    ("{" +:+ quoted "status" +:+ ":1}", inr {[ "status" := JNumber "1" ]});
    ("{" +:+ quoted "markdown" +:+ ":1}", inr {[ "markdown" := JNumber "1" ]});
    ("{" +:+ quoted "id" +:+ ":1}", inr {[ "id" := JNumber "1" ]});
    (truncated, inl "unexpected EOF") ].

Fixpoint lookup_body (table : list (string * (string + json_map)))
    (body : string) : string + json_map :=
  match table with
  | [] => inl "invalid character"
  | (b, answer) :: rest =>
      if String.eqb b body then answer else lookup_body rest body
  end.

Definition decode : string -> string + json_map := lookup_body bodies.

(** The environment in which [LLAMA_CLOUD_API_KEY] is [key] (unset when
    empty), every URL parses, the caller of [time.Now] goes on 50 ns after
    the reading, sleeps are exact, and every round trip to [server] takes
    [took] nanoseconds. *)
Definition mk_env (key : string) (server : Server) (took : N) : Env :=
  {| getenv := fun name =>
       if String.eqb name "LLAMA_CLOUD_API_KEY" then key else "";
     random_boundary := "f3a9";
     url_error := fun _ => None;
     clock_step := fun _ => 50%positive;
     sleep_lag := fun _ _ => 0%N;
     round_trip := fun w _ req => (took, serve server w req);
     json_decode := decode |}.

(** Answers [PENDING] until the n-th status request, then [SUCCESS]; the
    result is ["hello"] under [markdown]. *)
Definition succeeds_at (n : nat) : Server :=
  {| on_upload := ok (object1 "id" job);
     on_status := fun k =>
       ok (object1 "status" (if (k <? n)%nat then "PENDING" else "SUCCESS"));
     on_result := ok (object1 "markdown" "hello") |}.

(** Never reports success. *)
Definition always_pending : Server :=
  {| on_upload := ok (object1 "id" job);
     on_status := fun _ => ok (object1 "status" "PENDING");
     on_result := ok (object1 "markdown" "hello") |}.

(** Answers the upload with [code] and [body]. *)
Definition upload_answers (code : Z) (body : string) : Server :=
  {| on_upload := inr {| StatusCode := code; Body := body |};
     on_status := fun _ => ok (object1 "status" "SUCCESS");
     on_result := ok (object1 "markdown" "hello") |}.

(** Answers every status request with [code] and [body]. *)
Definition status_answers (code : Z) (body : string) : Server :=
  {| on_upload := ok (object1 "id" job);
     on_status := fun _ => inr {| StatusCode := code; Body := body |};
     on_result := ok (object1 "markdown" "hello") |}.

(** Reports success at once and answers the result request with [code]
    and [body]. *)
Definition result_answers (code : Z) (body : string) : Server :=
  {| on_upload := ok (object1 "id" job);
     on_status := fun _ => ok (object1 "status" "SUCCESS");
     on_result := inr {| StatusCode := code; Body := body |} |}.

(** The environment without a credential and round trips of 0.1 s. *)
Definition env_of (server : Server) : Env := mk_env "" server 100000000.

Definition w0 : World := {| now := 0; trace := [] |}.

Definition file1 : list byte := [x25; x50; x44; x46].

End Mock.


(** ** The example program *)

Module example.

Definition FILENAME : string := "somatosensory.pdf".

Definition newline : string := String (ascii_of_nat 10) EmptyString.

(** How the program ends: it has printed [out] to the standard output, it
    has panicked with [err], or (in the model only) it is still polling
    when the fuel runs out. *)
Inductive ending : Type :=
| Printed (out : string)
| Panicked (err : error)
| Running.

(** [main] (lines 247-256).  [os_ReadFile] is the answer of [os.ReadFile]:
    the bytes read and the error, which [main] drops. *)
Definition main (env : Env) (fuel : nat)
    (os_ReadFile : string -> list byte * option string) (w : World)
  : World * ending :=
  let '(file, _) := os_ReadFile FILENAME in
  match outcome (Parse env fuel file MARKDOWN None None None None) w with
  | (w', Some (Err err)) => (w', Panicked err)
  | (w', Some (Ok parsedText)) => (w', Printed (parsedText +:+ newline))
  | (w', None) => (w', Running)
  end.

End example.

(** A request to compare against. *)
Definition no_request : Request :=
  {| Method := ""; URL := ""; Header := ∅; ReqBody := None |}.

(** ** The paths through the code

    The ways a run can go, each with the answers of the library calls that
    select it, the world the run ends in and how it ends. *)

(** The world in which a pass sends its status request: after the time
    check and the sleep. *)
Definition slept (env : Env) (ci start : Z) (w : World) : World :=
  fst (time_Sleep (X:=loop_exit) env ci
         (fst (time_Since (X:=loop_exit) start w))).

(** From the success status on (lines 111-140), in world [w3]. *)
Inductive fetch_path (env : Env) (client : Client)
    (headers : gmap string string) (resultURL : string) (mode : LlamaParseMode)
    (w3 : World) : World -> result string -> Prop :=
| fetch_unbuilt e :
    http_NewRequest env "GET" resultURL None = Err e ->
    fetch_path env client headers resultURL mode w3 w3 (Err e)
| fetch_failed req w4 e :
    http_NewRequest env "GET" resultURL None = Ok req ->
    client_Do (X:=loop_exit) env client (set_headers headers req) w3
    = (w4, inr (Err e)) ->
    fetch_path env client headers resultURL mode w3 w4 (Err e)
| fetch_not_ok req w4 resp :
    http_NewRequest env "GET" resultURL None = Ok req ->
    client_Do (X:=loop_exit) env client (set_headers headers req) w3
    = (w4, inr (Ok resp)) ->
    StatusCode resp <> StatusOK ->
    fetch_path env client headers resultURL mode w3 w4 (Err ErrParsingFailed)
| fetch_undecodable req w4 resp e :
    http_NewRequest env "GET" resultURL None = Ok req ->
    client_Do (X:=loop_exit) env client (set_headers headers req) w3
    = (w4, inr (Ok resp)) ->
    StatusCode resp = StatusOK ->
    json_Decode env (Body resp) = Err e ->
    fetch_path env client headers resultURL mode w3 w4 (Err e)
| fetch_no_field req w4 resp resultResponse :
    http_NewRequest env "GET" resultURL None = Ok req ->
    client_Do (X:=loop_exit) env client (set_headers headers req) w3
    = (w4, inr (Ok resp)) ->
    StatusCode resp = StatusOK ->
    json_Decode env (Body resp) = Ok resultResponse ->
    (forall s, resultResponse !! mode <> Some (JString s)) ->
    fetch_path env client headers resultURL mode w3 w4 (Err ErrParsingFailed)
| fetch_value req w4 resp resultResponse s :
    http_NewRequest env "GET" resultURL None = Ok req ->
    client_Do (X:=loop_exit) env client (set_headers headers req) w3
    = (w4, inr (Ok resp)) ->
    StatusCode resp = StatusOK ->
    json_Decode env (Body resp) = Ok resultResponse ->
    resultResponse !! mode = Some (JString s) ->
    fetch_path env client headers resultURL mode w3 w4 (Ok s).

(** One pass of the poll loop, from world [w]. *)
Inductive pass_path (env : Env) (client : Client)
    (headers : gmap string string) (statusURL resultURL : string)
    (mode : LlamaParseMode) (timeout ci start : Z) (w : World)
  : World -> loop_exit -> Prop :=
| path_timeout :
    timeout < saturate64 (now w - start) ->
    pass_path env client headers statusURL resultURL mode timeout ci start w
      (fst (time_Since (X:=loop_exit) start w))
      (Leave (Return (Err ErrTimeoutReached)))
| path_status_unbuilt e :
    saturate64 (now w - start) <= timeout ->
    http_NewRequest env "GET" statusURL None = Err e ->
    pass_path env client headers statusURL resultURL mode timeout ci start w
      (slept env ci start w) (Leave (Return (Err e)))
| path_status_failed req w3 e :
    saturate64 (now w - start) <= timeout ->
    http_NewRequest env "GET" statusURL None = Ok req ->
    client_Do (X:=loop_exit) env client (set_headers headers req)
              (slept env ci start w)
    = (w3, inr (Err e)) ->
    pass_path env client headers statusURL resultURL mode timeout ci start w
      w3 (Leave (Return (Err e)))
| path_status_not_ok req w3 resp :
    saturate64 (now w - start) <= timeout ->
    http_NewRequest env "GET" statusURL None = Ok req ->
    client_Do (X:=loop_exit) env client (set_headers headers req)
              (slept env ci start w)
    = (w3, inr (Ok resp)) ->
    StatusCode resp <> StatusOK ->
    pass_path env client headers statusURL resultURL mode timeout ci start w
      w3 Continue
| path_status_undecodable req w3 resp e :
    saturate64 (now w - start) <= timeout ->
    http_NewRequest env "GET" statusURL None = Ok req ->
    client_Do (X:=loop_exit) env client (set_headers headers req)
              (slept env ci start w)
    = (w3, inr (Ok resp)) ->
    StatusCode resp = StatusOK ->
    json_Decode env (Body resp) = Err e ->
    pass_path env client headers statusURL resultURL mode timeout ci start w
      w3 (Leave (Return (Err e)))
| path_status_other req w3 resp statusResponse :
    saturate64 (now w - start) <= timeout ->
    http_NewRequest env "GET" statusURL None = Ok req ->
    client_Do (X:=loop_exit) env client (set_headers headers req)
              (slept env ci start w)
    = (w3, inr (Ok resp)) ->
    StatusCode resp = StatusOK ->
    json_Decode env (Body resp) = Ok statusResponse ->
    statusResponse !! "status" <> Some (JString "SUCCESS") ->
    pass_path env client headers statusURL resultURL mode timeout ci start w
      w3 Continue
| path_success req w3 resp statusResponse w' r :
    saturate64 (now w - start) <= timeout ->
    http_NewRequest env "GET" statusURL None = Ok req ->
    client_Do (X:=loop_exit) env client (set_headers headers req)
              (slept env ci start w)
    = (w3, inr (Ok resp)) ->
    StatusCode resp = StatusOK ->
    json_Decode env (Body resp) = Ok statusResponse ->
    statusResponse !! "status" = Some (JString "SUCCESS") ->
    fetch_path env client headers resultURL mode w3 w' r ->
    pass_path env client headers statusURL resultURL mode timeout ci start w
      w' (Leave (Return r)).

(** The upload request of [Parse] (lines 183-189), from the request
    [http.NewRequest] made. *)
Definition upload_request (apiKey contentType : string) (req : Request)
  : Request :=
  http.Header_Set "Content-Type" contentType
    (http.Header_Set "Authorization" ("Bearer " +:+ apiKey) req).

(** From the answer [r] to the upload on (lines 202-234), in world [w1]. *)
Inductive upload_path (env : Env) (fuel : nat)
    (mode : LlamaParseMode) (apiKeyOptional : option string)
    (timeoutSecondsOptional checkIntervalSecondsOptional : option Z)
    (w1 : World) : result Response -> World -> fn_exit -> Prop :=
| upload_failed e :
    upload_path env fuel mode apiKeyOptional
      timeoutSecondsOptional checkIntervalSecondsOptional w1
      (Err e) w1 (Return (Err e))
| upload_not_ok resp :
    StatusCode resp <> StatusOK ->
    upload_path env fuel mode apiKeyOptional
      timeoutSecondsOptional checkIntervalSecondsOptional w1
      (Ok resp) w1 (Return (Err ErrParsingFailed))
| upload_undecodable resp e :
    StatusCode resp = StatusOK ->
    json_Decode env (Body resp) = Err e ->
    upload_path env fuel mode apiKeyOptional
      timeoutSecondsOptional checkIntervalSecondsOptional w1
      (Ok resp) w1 (Return (Err e))
| upload_no_id resp response :
    StatusCode resp = StatusOK ->
    json_Decode env (Body resp) = Ok response ->
    (forall s, response !! "id" <> Some (JString s)) ->
    upload_path env fuel mode apiKeyOptional
      timeoutSecondsOptional checkIntervalSecondsOptional w1
      (Ok resp) w1 (Return (Err ErrParsingFailed))
| upload_polled resp response jobID w' x :
    StatusCode resp = StatusOK ->
    json_Decode env (Body resp) = Ok response ->
    response !! "id" = Some (JString jobID) ->
    getJobResult env fuel (credential env apiKeyOptional) BASE_URL jobID mode
      (seconds (or_default DEFAULT_MAX_TIMEOUT_SECONDS
                           timeoutSecondsOptional))
      (seconds (or_default DEFAULT_CHECK_INTERVAL_SECONDS
                           checkIntervalSecondsOptional))
      w1
    = (w', inl x) ->
    upload_path env fuel mode apiKeyOptional
      timeoutSecondsOptional checkIntervalSecondsOptional w1
      (Ok resp) w' x.

(** A run of [Parse], from world [w]. *)
Inductive parse_path (env : Env) (fuel : nat) (file : list byte)
    (mode : LlamaParseMode) (apiKeyOptional languageOptional : option string)
    (timeoutSecondsOptional checkIntervalSecondsOptional : option Z)
    (w : World) : World -> fn_exit -> Prop :=
| parse_path_empty :
    file = [] ->
    parse_path env fuel file mode apiKeyOptional languageOptional
      timeoutSecondsOptional checkIntervalSecondsOptional w
      w (Return (Err ErrEmptyFile))
| parse_path_no_key :
    file <> [] ->
    apiKeyOptional = None ->
    getenv env API_KEY_VARIABLE = "" ->
    parse_path env fuel file mode apiKeyOptional languageOptional
      timeoutSecondsOptional checkIntervalSecondsOptional w
      (log (EvGetenv API_KEY_VARIABLE) w) (Return (Err ErrNoAPIKey))
| parse_path_unbuilt body contentType e :
    file <> [] ->
    has_credential env apiKeyOptional ->
    createMultipartRequest env file languageOptional = Ok (body, contentType) ->
    http_NewRequest env "POST" (BASE_URL +:+ "/api/parsing/upload") (Some body)
    = Err e ->
    parse_path env fuel file mode apiKeyOptional languageOptional
      timeoutSecondsOptional checkIntervalSecondsOptional w
      (after_credential apiKeyOptional w) (Return (Err e))
| parse_path_uploaded body contentType req w1 r w' x :
    file <> [] ->
    has_credential env apiKeyOptional ->
    createMultipartRequest env file languageOptional = Ok (body, contentType) ->
    http_NewRequest env "POST" (BASE_URL +:+ "/api/parsing/upload") (Some body)
    = Ok req ->
    client_Do (X:=fn_exit) env
      {| Timeout := seconds (or_default DEFAULT_MAX_TIMEOUT_SECONDS
                                        timeoutSecondsOptional) |}
      (upload_request (credential env apiKeyOptional) contentType req)
      (after_credential apiKeyOptional w)
    = (w1, inr r) ->
    upload_path env fuel mode apiKeyOptional
      timeoutSecondsOptional checkIntervalSecondsOptional w1 r w' x ->
    parse_path env fuel file mode apiKeyOptional languageOptional
      timeoutSecondsOptional checkIntervalSecondsOptional w
      w' x.

(** What stands behind an error that [Parse] returns, in the world [w']
    the run ends in: the answer of the library call made last. *)
Definition explained (env : Env) (apiKey : string) (mode : LlamaParseMode)
    (w' : World) (e : error) : Prop :=
  match e with
  | ErrEmptyFile | ErrNoAPIKey | ErrTimeoutReached => True
  | WriterError _ => False
  | RequestError msg => exists url, url_error env url = Some msg
  | TransportError msg =>
      exists w3 t req took,
        round_trip env w3 t req = (took, inl msg) /\
        w' = advance (Z.of_N took) (log (EvDo t req) w3)
  | DecodeError msg =>
      exists w3 t req took resp,
        round_trip env w3 t req = (took, inr resp) /\
        w' = advance (Z.of_N took) (log (EvDo t req) w3) /\
        StatusCode resp = StatusOK /\
        json_decode env (Body resp) = inl msg
  | ErrParsingFailed =>
      exists w3 t req took resp field,
        round_trip env w3 t req = (took, inr resp) /\
        w' = advance (Z.of_N took) (log (EvDo t req) w3) /\
        ((Method req = "POST" /\ field = "id") \/
         (exists jobID, req = result_request apiKey BASE_URL jobID mode) /\
         field = mode) /\
        (StatusCode resp <> StatusOK \/
         exists m,
           json_decode env (Body resp) = inr m /\
           forall s, m !! field <> Some (JString s))
  end.
(** * Properties *)

(** ** Worlds, loops and forms *)

Lemma trace_log ev w : trace (log ev w) = trace w ++ [ev].
Proof. reflexivity. Qed.

Lemma trace_advance d w : trace (advance d w) = trace w.
Proof. reflexivity. Qed.

Lemma for_ever_continue fuel body w w' :
  body w = (w', inl Continue) ->
  for_ever (S fuel) body w = for_ever fuel body w'.
Proof. intros H. simpl. now rewrite H. Qed.

Lemma for_ever_leave fuel body w w' x :
  body w = (w', inl (Leave x)) ->
  for_ever (S fuel) body w = (w', inl x).
Proof. intros H. simpl. now rewrite H. Qed.

Lemma for_ever_continued k n body w w1 :
  continued k body w = Some w1 ->
  for_ever (k + n) body w = for_ever n body w1.
Proof.
  revert w. induction k as [|k IH]; intros w H; simpl in *.
  - now inversion H.
  - destruct (body w) as [w' [[|x]|v]]; try discriminate.
    now apply IH.
Qed.

(** A function never ends by yielding a value of the empty type. *)
Lemma ends_in_exit (f : Go fn_exit Empty_set) w :
  exists x, f w = (fst (f w), inl x).
Proof. destruct (f w) as [w' [x|v]]; [now exists x | destruct v]. Qed.

Lemma outcome_return (f : Go fn_exit Empty_set) w w' r :
  f w = (w', inl (Return r)) -> outcome f w = (w', Some r).
Proof. intros H. unfold outcome. now rewrite H. Qed.

(** Building the form cannot fail. *)
Lemma createMultipartRequest_ok env file language :
  exists body,
    createMultipartRequest env file language
    = Ok (body, "multipart/form-data; boundary=" +:+ random_boundary env).
Proof.
  unfold createMultipartRequest, multipart.CreateFormFile, multipart.CreatePart,
    multipart.NewWriter, multipart.Write.
  cbn [Parts Boundary Closed app].
  change (reverse [?p]) with [p]. cbn iota beta.
  destruct language as [l|]; cbn.
  - eexists. reflexivity.
  - eexists. reflexivity.
Qed.

(** Setting headers touches neither the method, the URL nor the body. *)
Lemma set_headers_URL headers req : URL (set_headers headers req) = URL req.
Proof.
  unfold set_headers.
  apply (map_fold_weak_ind (fun r _ => URL r = URL req)); [reflexivity|].
  intros k v m r _ IH. exact IH.
Qed.

Lemma set_headers_singleton key value req :
  set_headers {[ key := value ]} req = http.Header_Set key value req.
Proof. unfold set_headers. apply map_fold_singleton. Qed.


(** The errors of the library calls are the library's. *)
Lemma http_NewRequest_error env method url body e :
  http_NewRequest env method url body = Err e -> past_checks (Err e).
Proof.
  unfold http_NewRequest. destruct (url_error env url); now intros [= <-].
Qed.

Lemma json_Decode_error env body e :
  json_Decode env body = Err e -> past_checks (Err e).
Proof.
  unfold json_Decode. destruct (json_decode env body); now intros [= <-].
Qed.

Lemma client_Do_spec {X} env client req w :
  exists w1 r,
    client_Do (X:=X) env client req w = (w1, inr r) /\
    trace w1 = trace w ++ [EvDo (Timeout client) req] /\
    (forall e, r = Err e -> past_checks (Err e)).
Proof.
  unfold client_Do.
  destruct (round_trip env w (Timeout client) req) as [took [msg|resp]];
    eexists _, _; (split; [reflexivity|]); (split; [reflexivity|]);
    now intros e [= <-].
Qed.

Lemma result_cases {A} (r : result A) :
  (exists v, r = Ok v) \/ (exists e, r = Err e).
Proof. destruct r; eauto. Qed.
(** ** One pass of the poll loop *)

Section Pass.

Context (env : Env) (client : Client) (headers : gmap string string)
        (statusURL resultURL : string) (mode : LlamaParseMode)
        (timeout checkInterval start : Z).

Let pass : Go loop_exit Empty_set :=
  getJobResult_pass env client headers statusURL resultURL mode
                    timeout checkInterval start.

Local Ltac run_pass :=
  unfold pass, getJobResult_pass, bind, try, pure, return_, leave, from_fn,
    loop_exits;
  cbv beta.

Local Ltac ends_pass :=
  intros [= <- <-]; eexists; split;
  [ cbn [trace log advance]; rewrite <- ?app_assoc; reflexivity
  | cbn [app]; now constructor ].

(** The pass that finds the time used up. *)
Lemma pass_timed_out w :
  timeout < saturate64 (now w - start) ->
  pass w = (log (EvSince (saturate64 (now w - start))) w,
            inl (Leave (Return (Err ErrTimeoutReached)))).
Proof.
  intros H. run_pass. unfold time_Since.
  apply Z.gtb_lt in H. now rewrite H.
Qed.

(** What a pass, any pass, adds to the trace. *)
Lemma pass_events_sound w w' x :
  pass w = (w', inl x) ->
  exists evs,
    trace w' = trace w ++ evs /\
    pass_events (Timeout client)
      (set_headers headers
         {| Method := "GET"; URL := statusURL; Header := ∅; ReqBody := None |})
      (set_headers headers
         {| Method := "GET"; URL := resultURL; Header := ∅; ReqBody := None |})
      timeout checkInterval evs x.
Proof.
  run_pass.
  unfold time_Since, time_Sleep, http_NewRequest, client_Do, json_Decode.
  destruct (Z.gtb_spec (saturate64 (now w - start)) timeout) as [Hgt|Hle].
  { intros [= <- <-]. eexists. split; [reflexivity|]. now constructor. }
  destruct (url_error env statusURL); cbv beta iota; [ends_pass|].
  destruct (round_trip env _ _ _) as [took [msg|resp]];
    cbv beta iota; [ends_pass|].
  destruct (StatusCode resp =? StatusOK)%Z; cbn [negb]; [|ends_pass].
  destruct (json_decode env (Body resp)) as [msg|m];
    cbv beta iota; [ends_pass|].
  destruct (assert_string (m !! "status")) as [status [|]];
    cbn [negb orb]; [|ends_pass].
  destruct (String.eqb status "SUCCESS"); cbn [negb]; [|ends_pass].
  destruct (url_error env resultURL); cbv beta iota; [ends_pass|].
  destruct (round_trip env _ _ _) as [took' [msg|resp']];
    cbv beta iota; [ends_pass|].
  destruct (StatusCode resp' =? StatusOK)%Z; cbn [negb]; [|ends_pass].
  destruct (json_decode env (Body resp')) as [msg|m'];
    cbv beta iota; [ends_pass|].
  destruct (assert_string (m' !! mode)) as [result [|]];
    cbn [negb]; ends_pass.
Qed.

(** What a run of the loop adds to the trace. *)
Lemma loop_events_sound fuel w w' x :
  for_ever fuel pass w = (w', inl x) ->
  exists evs,
    trace w' = trace w ++ evs /\
    loop_events (Timeout client)
      (set_headers headers
         {| Method := "GET"; URL := statusURL; Header := ∅; ReqBody := None |})
      (set_headers headers
         {| Method := "GET"; URL := resultURL; Header := ∅; ReqBody := None |})
      timeout checkInterval evs x.
Proof.
  revert w. induction fuel as [|fuel IH]; intros w; simpl.
  - intros [= <- <-]. exists []. split; [now rewrite app_nil_r | constructor].
  - destruct (pass w) as [w1 [[|y]|v]] eqn:E; [| |destruct v].
    + intros H. apply pass_events_sound in E as (evs & Ht & He).
      apply IH in H as (evs' & Ht' & He').
      exists (evs ++ evs'). split.
      * now rewrite Ht', Ht, app_assoc.
      * now apply loop_continue.
    + intros [= <- <-]. apply pass_events_sound in E as (evs & Ht & He).
      exists evs. split; [exact Ht | now apply loop_leave].
Qed.

(** A pass up to the answer to its status request. *)
Section Polled.

Context (w w1 w2 w3 : World) (elapsed : Z) (req : Request)
        (r : result Response).
Hypothesis Hsince : time_Since (X:=loop_exit) start w = (w1, inr elapsed).
Hypothesis Hle : elapsed <= timeout.
Hypothesis Hsleep :
  time_Sleep (X:=loop_exit) env checkInterval w1 = (w2, inr tt).
Hypothesis Hreq : http_NewRequest env "GET" statusURL None = Ok req.
Hypothesis Hdo :
  client_Do (X:=loop_exit) env client (set_headers headers req) w2
  = (w3, inr r).

Local Ltac to_status_reply :=
  run_pass; rewrite Hsince;
  replace (elapsed >? timeout)%Z with false
    by (symmetry; rewrite Z.gtb_ltb; now apply Z.ltb_ge);
  rewrite Hsleep, Hreq, Hdo.

Lemma pass_transport_error e :
  r = Err e -> pass w = (w3, inl (Leave (Return (Err e)))).
Proof. intros ->. now to_status_reply. Qed.

Lemma pass_not_ok resp :
  r = Ok resp -> StatusCode resp <> StatusOK ->
  pass w = (w3, inl Continue).
Proof.
  intros -> Hcode. to_status_reply.
  apply Z.eqb_neq in Hcode. now rewrite Hcode.
Qed.

Lemma pass_undecodable resp e :
  r = Ok resp -> StatusCode resp = StatusOK ->
  json_Decode env (Body resp) = Err e ->
  pass w = (w3, inl (Leave (Return (Err e)))).
Proof.
  intros -> Hcode Hdec. to_status_reply.
  apply Z.eqb_eq in Hcode. now rewrite Hcode, Hdec.
Qed.

Lemma pass_not_success resp statusResponse :
  r = Ok resp -> StatusCode resp = StatusOK ->
  json_Decode env (Body resp) = Ok statusResponse ->
  statusResponse !! "status" <> Some (JString "SUCCESS") ->
  pass w = (w3, inl Continue).
Proof.
  intros -> Hcode Hdec Hstatus. to_status_reply.
  apply Z.eqb_eq in Hcode. rewrite Hcode, Hdec. cbn [negb].
  destruct (statusResponse !! "status") as [[| | |s| |]|]; cbn; try reflexivity.
  destruct (String.eqb_spec s "SUCCESS") as [->|]; [congruence | reflexivity].
Qed.

(** The status answer reports success. *)
Section Succeeded.

Context (resp : Response) (statusResponse : json_map).
Hypothesis Hr : r = Ok resp.
Hypothesis Hcode : StatusCode resp = StatusOK.
Hypothesis Hdec : json_Decode env (Body resp) = Ok statusResponse.
Hypothesis Hstatus :
  statusResponse !! "status" = Some (JString "SUCCESS").

Local Ltac to_fetch :=
  to_status_reply; rewrite Hr;
  replace (StatusCode resp =? StatusOK)%Z with true
    by (symmetry; now apply Z.eqb_eq);
  rewrite Hdec, Hstatus; cbn [negb assert_string orb String.eqb Ascii.eqb Bool.eqb andb].

Lemma pass_no_result_request e :
  http_NewRequest env "GET" resultURL None = Err e ->
  pass w = (w3, inl (Leave (Return (Err e)))).
Proof. intros H. to_fetch. now rewrite H. Qed.

Section Fetched.

Context (w4 : World) (req' : Request) (r' : result Response).
Hypothesis Hreq' : http_NewRequest env "GET" resultURL None = Ok req'.
Hypothesis Hdo' :
  client_Do (X:=loop_exit) env client (set_headers headers req') w3
  = (w4, inr r').

Local Ltac to_result_reply := to_fetch; rewrite Hreq', Hdo'.

Lemma pass_fetch_transport_error e :
  r' = Err e -> pass w = (w4, inl (Leave (Return (Err e)))).
Proof. intros ->. now to_result_reply. Qed.

Lemma pass_fetch_not_ok resp' :
  r' = Ok resp' -> StatusCode resp' <> StatusOK ->
  pass w = (w4, inl (Leave (Return (Err ErrParsingFailed)))).
Proof.
  intros -> H. to_result_reply.
  apply Z.eqb_neq in H. now rewrite H.
Qed.

Lemma pass_fetch_undecodable resp' e :
  r' = Ok resp' -> StatusCode resp' = StatusOK ->
  json_Decode env (Body resp') = Err e ->
  pass w = (w4, inl (Leave (Return (Err e)))).
Proof.
  intros -> H Hd. to_result_reply.
  apply Z.eqb_eq in H. now rewrite H, Hd.
Qed.

Lemma pass_fetch_no_field resp' resultResponse :
  r' = Ok resp' -> StatusCode resp' = StatusOK ->
  json_Decode env (Body resp') = Ok resultResponse ->
  (forall s, resultResponse !! mode <> Some (JString s)) ->
  pass w = (w4, inl (Leave (Return (Err ErrParsingFailed)))).
Proof.
  intros -> H Hd Hno. to_result_reply.
  apply Z.eqb_eq in H. rewrite H, Hd. cbn [negb].
  destruct (resultResponse !! mode) as [[| | |s| |]|] eqn:E;
    cbn; try reflexivity.
  now destruct (Hno s).
Qed.

Lemma pass_fetch_value resp' resultResponse s :
  r' = Ok resp' -> StatusCode resp' = StatusOK ->
  json_Decode env (Body resp') = Ok resultResponse ->
  resultResponse !! mode = Some (JString s) ->
  pass w = (w4, inl (Leave (Return (Ok s)))).
Proof.
  intros -> H Hd Hs. to_result_reply.
  apply Z.eqb_eq in H. now rewrite H, Hd, Hs.
Qed.

End Fetched.

(** A pass that sees the success status does not [continue]: it goes on
    to the result request and returns. *)
Lemma pass_success_leaves :
  exists w' r',
    pass w = (w', inl (Leave (Return r'))) /\
    (forall req',
       http_NewRequest env "GET" resultURL None = Ok req' ->
       trace w'
       = trace w3 ++ [EvDo (Timeout client) (set_headers headers req')]).
Proof.
  destruct (http_NewRequest env "GET" resultURL None) as [req'|e] eqn:Hq.
  - destruct (client_Do_spec (X:=loop_exit) env client
                (set_headers headers req') w3) as (w4 & r' & Hd & Ht & _).
    assert (Hret : exists rr, pass w = (w4, inl (Leave (Return rr)))).
    { destruct (result_cases r') as [[resp' Hr']|[e Hr']];
        [|eexists; exact (pass_fetch_transport_error w4 req' r' Hq Hd e Hr')].
      destruct (decide (StatusCode resp' = StatusOK)) as [Hc|Hc];
        [|eexists; exact (pass_fetch_not_ok w4 req' r' Hq Hd resp' Hr' Hc)].
      destruct (json_Decode env (Body resp')) as [m|e] eqn:Hm;
        [|eexists;
          exact (pass_fetch_undecodable w4 req' r' Hq Hd resp' e Hr' Hc Hm)].
      destruct (m !! mode) as [[| | |s| |]|] eqn:Hs.
      4: eexists;
         exact (pass_fetch_value w4 req' r' Hq Hd resp' m s Hr' Hc Hm Hs).
      all: eexists;
        apply (pass_fetch_no_field w4 req' r' Hq Hd resp' m Hr' Hc Hm);
        congruence. }
    destruct Hret as [rr Hrr]. exists w4, rr. split; [exact Hrr|].
    now intros req'' [= <-].
  - exists w3, (Err e). split; [now apply pass_no_result_request|].
    discriminate.
Qed.

End Succeeded.

(** C1: when the answer to the status request has status 200 and a body
    that decodes, the pass ends in [continue], with nothing returned,
    exactly when the decoded object does not hold the string ["SUCCESS"]
    under ["status"]: for another string, a value that is not a string and
    a missing field alike, and then the loop goes into its next pass.  When
    it does hold it, the pass leaves the loop: it goes on to the result
    request and returns. *)
Theorem poll_success_iff_SUCCESS resp statusResponse :
  r = Ok resp ->
  StatusCode resp = StatusOK ->
  json_Decode env (Body resp) = Ok statusResponse ->
  (snd (pass w) = inl Continue <->
   statusResponse !! "status" <> Some (JString "SUCCESS")) /\
  (statusResponse !! "status" <> Some (JString "SUCCESS") ->
   pass w = (w3, inl Continue) /\
   forall fuel, for_ever (S fuel) pass w = for_ever fuel pass w3) /\
  (statusResponse !! "status" = Some (JString "SUCCESS") ->
   exists w' r',
     pass w = (w', inl (Leave (Return r'))) /\
     (forall req',
        http_NewRequest env "GET" resultURL None = Ok req' ->
        trace w'
        = trace w3 ++ [EvDo (Timeout client) (set_headers headers req')])).
Proof.
  intros Hr Hcode Hdec.
  assert (Hno : statusResponse !! "status" <> Some (JString "SUCCESS") ->
                pass w = (w3, inl Continue))
    by (intros Hne; exact (pass_not_success resp statusResponse
                             Hr Hcode Hdec Hne)).
  assert (Hyes : statusResponse !! "status" = Some (JString "SUCCESS") ->
                 exists w' r',
                   pass w = (w', inl (Leave (Return r'))) /\
                   (forall req',
                      http_NewRequest env "GET" resultURL None = Ok req' ->
                      trace w'
                      = trace w3
                        ++ [EvDo (Timeout client) (set_headers headers req')]))
    by (intros He; exact (pass_success_leaves resp statusResponse
                            Hr Hcode Hdec He)).
  split; [|split].
  - split.
    + intros Hc He. destruct (Hyes He) as (w' & r' & Hp & _).
      rewrite Hp in Hc. discriminate.
    + intros Hne. now rewrite (Hno Hne).
  - intros Hne. split; [now apply Hno|].
    intros fuel. apply for_ever_continue. now apply Hno.
  - exact Hyes.
Qed.

(** C3, amended: a transport error of the status request ends the loop at
    once and is returned as it is; an answer with a status other than 200
    is ignored and the loop goes into its next pass, and so is an answer
    whose body decodes to an object in which ["status"] is missing or not a
    string; but an answer with status 200 whose body does not decode ends
    the loop at once, and the decoder's error is returned as it is. *)
Theorem status_check_error_policy :
  (forall e, r = Err e -> pass w = (w3, inl (Leave (Return (Err e))))) /\
  (forall resp,
     r = Ok resp -> StatusCode resp <> StatusOK ->
     pass w = (w3, inl Continue)) /\
  (forall resp statusResponse,
     r = Ok resp -> StatusCode resp = StatusOK ->
     json_Decode env (Body resp) = Ok statusResponse ->
     (forall s, statusResponse !! "status" <> Some (JString s)) ->
     pass w = (w3, inl Continue)) /\
  (forall resp e,
     r = Ok resp -> StatusCode resp = StatusOK ->
     json_Decode env (Body resp) = Err e ->
     pass w = (w3, inl (Leave (Return (Err e))))) /\
  (forall fuel,
     pass w = (w3, inl Continue) ->
     for_ever (S fuel) pass w = for_ever fuel pass w3).
Proof.
  split; [|split; [|split; [|split]]].
  - exact pass_transport_error.
  - exact pass_not_ok.
  - intros resp m Hr Hc Hd Hno.
    exact (pass_not_success resp m Hr Hc Hd (Hno "SUCCESS")).
  - exact pass_undecodable.
  - intros fuel. apply for_ever_continue.
Qed.

End Polled.

End Pass.

(** ** Traces of the poll loop *)

Section Traces.

Context (t : Z) (sreq rreq : Request) (timeout ci : Z).

Local Abbreviation pass_events := (pass_events t sreq rreq timeout ci).
Local Abbreviation loop_events := (loop_events t sreq rreq timeout ci).




Lemma loop_events_result evs r :
  loop_events evs (Return r) -> r = Err ErrTimeoutReached \/ past_checks r.
Proof.
  remember (Return r) as x eqn:Ex. intros H. revert r Ex.
  induction H as [|evs x Hp|evs evs' x Hp Hl IH]; intros r Ex; try discriminate.
  - inversion Hp; subst; simplify_eq/=; auto.
  - now apply IH.
Qed.

(** Every request carries the client's timeout, every sleep lasts the
    poll interval, the requests are status and result requests, and the
    environment is not read. *)
Lemma loop_events_client_timeouts evs x :
  loop_events evs x -> Forall (eq t) (client_timeouts evs).
Proof.
  unfold client_timeouts.
  induction 1 as [|evs x Hp|evs evs' x Hp Hl IH].
  - constructor.
  - inversion Hp; subst; cbn; repeat constructor.
  - rewrite omap_app. apply Forall_app. split; [|exact IH].
    inversion Hp; subst; cbn; repeat constructor.
Qed.

Lemma loop_events_sleeps evs x :
  loop_events evs x -> Forall (eq ci) (sleeps evs).
Proof.
  unfold sleeps.
  induction 1 as [|evs x Hp|evs evs' x Hp Hl IH].
  - constructor.
  - inversion Hp; subst; cbn; repeat constructor.
  - rewrite omap_app. apply Forall_app. split; [|exact IH].
    inversion Hp; subst; cbn; repeat constructor.
Qed.

Lemma loop_events_requests evs x :
  loop_events evs x ->
  Forall (fun req => req = sreq \/ req = rreq) (requests evs).
Proof.
  unfold requests.
  induction 1 as [|evs x Hp|evs evs' x Hp Hl IH].
  - constructor.
  - inversion Hp; subst; cbn;
      repeat (apply List.Forall_cons; [now auto|]); try apply List.Forall_nil.
  - rewrite omap_app. apply Forall_app. split; [|exact IH].
    inversion Hp; subst; cbn;
      repeat (apply List.Forall_cons; [now auto|]); try apply List.Forall_nil.
Qed.

Lemma loop_events_env_reads evs x :
  loop_events evs x -> env_reads evs = [].
Proof.
  unfold env_reads.
  induction 1 as [|evs x Hp|evs evs' x Hp Hl IH].
  - reflexivity.
  - now inversion Hp.
  - rewrite omap_app, IH. now inversion Hp.
Qed.

End Traces.

(** ** The stages of [Parse] *)

Section Submit.

Context (env : Env) (fuel : nat) (file : list byte) (mode : LlamaParseMode)
        (apiKeyOptional languageOptional : option string)
        (timeoutSecondsOptional checkIntervalSecondsOptional : option Z).

Let parse : Go fn_exit Empty_set :=
  Parse env fuel file mode apiKeyOptional languageOptional
        timeoutSecondsOptional checkIntervalSecondsOptional.

Local Ltac run_parse :=
  unfold parse, Parse, bind, try, pure, return_, leave, from_fn, fn_exits;
  cbv beta.

Lemma nonempty_length (l : list byte) : l <> [] -> (length l =? 0)%nat = false.
Proof. destruct l; [congruence | reflexivity]. Qed.

Lemma Parse_empty_file w :
  file = [] -> parse w = (w, inl (Return (Err ErrEmptyFile))).
Proof. intros ->. reflexivity. Qed.

Lemma Parse_no_key w :
  file <> [] -> apiKeyOptional = None -> getenv env API_KEY_VARIABLE = "" ->
  parse w = (log (EvGetenv API_KEY_VARIABLE) w,
             inl (Return (Err ErrNoAPIKey))).
Proof.
  intros Hfile Hnone Hunset. run_parse.
  rewrite (nonempty_length _ Hfile), Hnone. unfold os_Getenv.
  fold API_KEY_VARIABLE. now rewrite Hunset.
Qed.

Lemma Parse_no_upload_request w body contentType e :
  file <> [] -> has_credential env apiKeyOptional ->
  createMultipartRequest env file languageOptional = Ok (body, contentType) ->
  http_NewRequest env "POST" (BASE_URL +:+ "/api/parsing/upload") (Some body)
  = Err e ->
  parse w = (after_credential apiKeyOptional w, inl (Return (Err e))).
Proof.
  intros Hfile Hkey Hform Hreq. run_parse.
  rewrite (nonempty_length _ Hfile).
  unfold has_credential, after_credential in *.
  destruct apiKeyOptional as [key|];
    [| unfold os_Getenv; fold API_KEY_VARIABLE;
       destruct (String.eqb_spec (getenv env API_KEY_VARIABLE) "") as [E|_];
       [now destruct (Hkey eq_refl)|] ];
    now rewrite Hform, Hreq.
Qed.

(** A run up to the answer to the upload. *)
Section Uploaded.

Context (w w1 : World) (body : Writer) (contentType : string)
        (req : Request) (r : result Response).
Hypothesis Hfile : file <> [].
Hypothesis Hkey : has_credential env apiKeyOptional.
Hypothesis Hform :
  createMultipartRequest env file languageOptional = Ok (body, contentType).
Hypothesis Hreq :
  http_NewRequest env "POST" (BASE_URL +:+ "/api/parsing/upload") (Some body)
  = Ok req.
Hypothesis Hdo :
  client_Do (X:=fn_exit) env
    {| Timeout :=
         seconds (or_default DEFAULT_MAX_TIMEOUT_SECONDS
                             timeoutSecondsOptional) |}
    (http.Header_Set "Content-Type" contentType
       (http.Header_Set "Authorization"
          ("Bearer " +:+ credential env apiKeyOptional) req))
    (after_credential apiKeyOptional w)
  = (w1, inr r).

Local Ltac to_upload_reply :=
  run_parse; rewrite (nonempty_length _ Hfile);
  unfold has_credential, credential, after_credential, or_default in *;
  destruct apiKeyOptional as [key|];
  [| unfold os_Getenv; fold API_KEY_VARIABLE;
     destruct (String.eqb_spec (getenv env API_KEY_VARIABLE) "") as [E|_];
     [now destruct (Hkey eq_refl)|] ];
  rewrite Hform, Hreq, Hdo.

Lemma Parse_upload_transport_error e :
  r = Err e -> parse w = (w1, inl (Return (Err e))).
Proof. intros ->; to_upload_reply; reflexivity. Qed.

Lemma Parse_upload_not_ok resp :
  r = Ok resp -> StatusCode resp <> StatusOK ->
  parse w = (w1, inl (Return (Err ErrParsingFailed))).
Proof.
  intros -> H; apply Z.eqb_neq in H; to_upload_reply; now rewrite H.
Qed.

Lemma Parse_upload_undecodable resp e :
  r = Ok resp -> StatusCode resp = StatusOK ->
  json_Decode env (Body resp) = Err e ->
  parse w = (w1, inl (Return (Err e))).
Proof.
  intros -> H Hd; apply Z.eqb_eq in H; to_upload_reply; now rewrite H, Hd.
Qed.

Lemma Parse_upload_no_id resp response :
  r = Ok resp -> StatusCode resp = StatusOK ->
  json_Decode env (Body resp) = Ok response ->
  (forall s, response !! "id" <> Some (JString s)) ->
  parse w = (w1, inl (Return (Err ErrParsingFailed))).
Proof.
  intros -> H Hd Hno; apply Z.eqb_eq in H;
    to_upload_reply; rewrite H, Hd; cbn [negb];
    (destruct (response !! "id") as [[| | |s| |]|] eqn:E;
     cbn; try reflexivity; now destruct (Hno s)).
Qed.

(** With a job identifier in hand, the rest of the run is the poll
    loop's. *)
Lemma Parse_upload_job resp response jobID :
  r = Ok resp -> StatusCode resp = StatusOK ->
  json_Decode env (Body resp) = Ok response ->
  response !! "id" = Some (JString jobID) ->
  parse w =
  getJobResult env fuel (credential env apiKeyOptional) BASE_URL jobID mode
    (seconds (or_default DEFAULT_MAX_TIMEOUT_SECONDS
                         timeoutSecondsOptional))
    (seconds (or_default DEFAULT_CHECK_INTERVAL_SECONDS
                         checkIntervalSecondsOptional))
    w1.
Proof.
  intros -> H Hd Hid; apply Z.eqb_eq in H;
    to_upload_reply; rewrite H, Hd, Hid; cbn [negb assert_string];
    unfold call;
    (match goal with
     | |- context [getJobResult ?a ?b ?c ?d ?e ?f ?g ?h ?i] =>
         destruct (getJobResult a b c d e f g h i) as [w' [[rr|]|v]];
         [destruct rr| |destruct v]; reflexivity
     end).
Qed.

End Uploaded.

End Submit.

(** ** Whole runs *)

Lemma status_request_eq apiKey baseUrl jobID :
  set_headers {[ "Authorization" := "Bearer " +:+ apiKey ]}
    {| Method := "GET"; URL := baseUrl +:+ "/api/parsing/job/" +:+ jobID;
       Header := ∅; ReqBody := None |}
  = status_request apiKey baseUrl jobID.
Proof. now rewrite set_headers_singleton. Qed.

Lemma result_request_eq apiKey baseUrl jobID mode :
  set_headers {[ "Authorization" := "Bearer " +:+ apiKey ]}
    {| Method := "GET";
       URL := baseUrl +:+ "/api/parsing/job/" +:+ jobID +:+ "/result/" +:+ mode;
       Header := ∅; ReqBody := None |}
  = result_request apiKey baseUrl jobID mode.
Proof. now rewrite set_headers_singleton. Qed.

(** [getJobResult] reads the clock and runs the loop, which starts a
    moment later. *)
Lemma getJobResult_unfold env fuel apiKey baseUrl jobID mode timeout ci w :
  getJobResult env fuel apiKey baseUrl jobID mode timeout ci w
  = for_ever fuel
      (getJobResult_pass env {| Timeout := timeout |}
         {[ "Authorization" := "Bearer " +:+ apiKey ]}
         (baseUrl +:+ "/api/parsing/job/" +:+ jobID)
         (baseUrl +:+ "/api/parsing/job/" +:+ jobID +:+ "/result/" +:+ mode)
         mode timeout ci (now w))
      (advance (Z.pos (clock_step env w)) (log (EvNow (now w)) w)).
Proof. reflexivity. Qed.

Lemma getJobResult_events env fuel apiKey baseUrl jobID mode timeout ci w w' x :
  getJobResult env fuel apiKey baseUrl jobID mode timeout ci w = (w', inl x) ->
  exists evs,
    trace w' = trace w ++ EvNow (now w) :: evs /\
    loop_events timeout (status_request apiKey baseUrl jobID)
      (result_request apiKey baseUrl jobID mode) timeout ci evs x.
Proof.
  rewrite getJobResult_unfold. intros H.
  apply loop_events_sound in H as (evs & Ht & He).
  rewrite status_request_eq, result_request_eq in He.
  exists evs. split; [|exact He].
  rewrite Ht, trace_advance, trace_log, <- app_assoc. reflexivity.
Qed.

Lemma authorized_upload apiKey contentType req :
  authorized apiKey
    (http.Header_Set "Content-Type" contentType
       (http.Header_Set "Authorization" ("Bearer " +:+ apiKey) req)).
Proof.
  unfold authorized, http.Header_Set. cbn [Header].
  rewrite lookup_insert_ne by discriminate. apply lookup_insert_eq.
Qed.

Lemma trace_after_credential apiKeyOptional w :
  trace (after_credential apiKeyOptional w)
  = trace w ++ credential_events apiKeyOptional.
Proof. destruct apiKeyOptional; cbn; [now rewrite app_nil_r | reflexivity]. Qed.

(** What a run of [Parse], any run, adds to the trace. *)
Lemma Parse_events env fuel file mode apiKeyOptional languageOptional
    timeoutSecondsOptional checkIntervalSecondsOptional w w' x :
  Parse env fuel file mode apiKeyOptional languageOptional
        timeoutSecondsOptional checkIntervalSecondsOptional w = (w', inl x) ->
  exists evs,
    trace w' = trace w ++ evs /\
    parse_events env apiKeyOptional mode
      (seconds (or_default DEFAULT_MAX_TIMEOUT_SECONDS timeoutSecondsOptional))
      (seconds (or_default DEFAULT_CHECK_INTERVAL_SECONDS
                           checkIntervalSecondsOptional))
      evs x.
Proof.
  set (t := seconds (or_default DEFAULT_MAX_TIMEOUT_SECONDS
                                timeoutSecondsOptional)).
  set (ci := seconds (or_default DEFAULT_CHECK_INTERVAL_SECONDS
                                 checkIntervalSecondsOptional)).
  destruct (decide (file = [])) as [->|Hfile].
  { intros [= <- <-]. exists []. split; [now rewrite app_nil_r | constructor]. }
  assert (Hcases : (apiKeyOptional = None /\ getenv env API_KEY_VARIABLE = "")
                   \/ has_credential env apiKeyOptional).
  { unfold has_credential. destruct apiKeyOptional as [key|]; [now right|].
    destruct (String.eqb_spec (getenv env API_KEY_VARIABLE) ""); auto. }
  destruct Hcases as [[Hnone Hunset]|Hkey].
  { rewrite (Parse_no_key _ _ _ _ _ _ _ _ _ Hfile Hnone Hunset).
    intros [= <- <-]. eexists. split; [reflexivity | now constructor]. }
  destruct (createMultipartRequest_ok env file languageOptional)
    as [body Hform].
  destruct (http_NewRequest env "POST" (BASE_URL +:+ "/api/parsing/upload")
              (Some body)) as [req|e] eqn:Hreq.
  2:{ erewrite Parse_no_upload_request by eassumption.
      intros [= <- <-]. eexists. split; [apply trace_after_credential|].
      constructor. eapply http_NewRequest_error, Hreq. }
  set (upload :=
         http.Header_Set "Content-Type"
           ("multipart/form-data; boundary=" +:+ random_boundary env)
           (http.Header_Set "Authorization"
              ("Bearer " +:+ credential env apiKeyOptional) req)).
  destruct (client_Do_spec (X:=fn_exit) env {| Timeout := t |} upload
              (after_credential apiKeyOptional w))
    as (w1 & r & Hdo & Ht & Herr).
  assert (Htr : trace w1 = trace w ++ credential_events apiKeyOptional
                             ++ [EvDo t upload]).
  { rewrite Ht, trace_after_credential, <- app_assoc. reflexivity. }
  assert (Hauth : authorized (credential env apiKeyOptional) upload)
    by apply authorized_upload.
  destruct r as [resp|e].
  2:{ erewrite Parse_upload_transport_error by eauto.
      intros [= <- <-]. eexists. split; [exact Htr|].
      constructor; [exact Hauth | now apply Herr]. }
  destruct (decide (StatusCode resp = StatusOK)) as [Hcode|Hcode].
  2:{ erewrite Parse_upload_not_ok by eauto.
      intros [= <- <-]. eexists. split; [exact Htr|].
      now constructor. }
  destruct (json_Decode env (Body resp)) as [response|e] eqn:Hdec.
  2:{ erewrite Parse_upload_undecodable by eauto.
      intros [= <- <-]. eexists. split; [exact Htr|].
      constructor; [exact Hauth | eapply json_Decode_error, Hdec]. }
  destruct (response !! "id") as [[| | |jobID| |]|] eqn:Hid.
  4:{ rewrite (Parse_upload_job env fuel file mode apiKeyOptional
                 languageOptional timeoutSecondsOptional
                 checkIntervalSecondsOptional w w1 body _ req (Ok resp)
                 Hfile Hkey Hform Hreq Hdo resp response jobID
                 eq_refl Hcode Hdec Hid).
      intros H. apply getJobResult_events in H as (evs & Hevs & Hloop).
      eexists. split.
      - rewrite Hevs, Htr, <- !app_assoc. reflexivity.
      - exact (parse_polled env apiKeyOptional mode t ci upload jobID
                 (now w1) evs x Hauth Hloop). }
  all: erewrite Parse_upload_no_id by (eauto; rewrite Hid; congruence).
  all: intros [= <- <-]; eexists; (split; [exact Htr|]); now constructor.
Qed.

(** ** Requests in the trace *)

Lemma requests_app a b : requests (a ++ b) = requests a ++ requests b.
Proof. apply omap_app. Qed.

Lemma client_Do_trace {X} env client req w w1 r :
  client_Do (X:=X) env client req w = (w1, inr r) ->
  trace w1 = trace w ++ [EvDo (Timeout client) req].
Proof.
  unfold client_Do.
  destruct (round_trip env w (Timeout client) req) as [took reply].
  now intros [= <- _].
Qed.

Lemma requests_after_credential apiKeyOptional w :
  requests (trace (after_credential apiKeyOptional w)) = requests (trace w).
Proof.
  rewrite trace_after_credential, requests_app.
  destruct apiKeyOptional; cbn; apply app_nil_r.
Qed.


(** ** Runs that reach the result request *)

Lemma continued_requests env client headers statusURL resultURL mode timeout
    ci start k w wk :
  continued k
    (getJobResult_pass env client headers statusURL resultURL mode timeout ci
                       start) w = Some wk ->
  requests (trace wk)
  = requests (trace w)
    ++ replicate k
         (set_headers headers
            {| Method := "GET"; URL := statusURL; Header := ∅;
               ReqBody := None |}).
Proof.
  revert w. induction k as [|k IH]; intros w; simpl.
  - intros [= <-]. now rewrite app_nil_r.
  - destruct (getJobResult_pass _ _ _ _ _ _ _ _ _ w) as [w' [[|y]|v]] eqn:E;
      try discriminate.
    intros H. apply IH in H. rewrite H.
    apply pass_events_sound in E as (evs & Ht & He).
    inversion He; subst. rewrite Ht, requests_app, <- app_assoc.
    reflexivity.
Qed.

Section Run.

Context (env : Env) (fuel : nat) (file : list byte) (mode : LlamaParseMode)
        (apiKeyOptional languageOptional : option string)
        (timeoutSecondsOptional checkIntervalSecondsOptional : option Z).

Let parse : Go fn_exit Empty_set :=
  Parse env fuel file mode apiKeyOptional languageOptional
        timeoutSecondsOptional checkIntervalSecondsOptional.
Let apiKey : string := credential env apiKeyOptional.
Let timeout : Z :=
  seconds (or_default DEFAULT_MAX_TIMEOUT_SECONDS timeoutSecondsOptional).
Let interval : Z :=
  seconds (or_default DEFAULT_CHECK_INTERVAL_SECONDS
                      checkIntervalSecondsOptional).
Let client : Client := {| Timeout := timeout |}.

(** The upload is answered with a job identifier in world [w1]. *)
Context (w w1 : World) (body : Writer) (contentType : string) (req : Request)
        (resp : Response) (response : json_map) (jobID : string).
Let upload : Request :=
  http.Header_Set "Content-Type" contentType
    (http.Header_Set "Authorization" ("Bearer " +:+ apiKey) req).
Hypothesis Hfile : file <> [].
Hypothesis Hkey : has_credential env apiKeyOptional.
Hypothesis Hform :
  createMultipartRequest env file languageOptional = Ok (body, contentType).
Hypothesis Hreq :
  http_NewRequest env "POST" (BASE_URL +:+ "/api/parsing/upload") (Some body)
  = Ok req.
Hypothesis Hdo :
  client_Do (X:=fn_exit) env client upload (after_credential apiKeyOptional w)
  = (w1, inr (Ok resp)).
Hypothesis Hcode : StatusCode resp = StatusOK.
Hypothesis Hdec : json_Decode env (Body resp) = Ok response.
Hypothesis Hid : response !! "id" = Some (JString jobID).

Let statusURL : string := BASE_URL +:+ "/api/parsing/job/" +:+ jobID.
Let resultURL : string :=
  BASE_URL +:+ "/api/parsing/job/" +:+ jobID +:+ "/result/" +:+ mode.
Let pass : Go loop_exit Empty_set :=
  getJobResult_pass env client {[ "Authorization" := "Bearer " +:+ apiKey ]}
    statusURL resultURL mode timeout interval (now w1).

(** The loop starts once the clock is read; its first [k] passes end in
    [continue], in world [wk], and there is fuel for one more. *)
Context (k : nat) (wk : World).
Hypothesis Hcontinued :
  continued k pass
    (advance (Z.pos (clock_step env w1)) (log (EvNow (now w1)) w1))
  = Some wk.
Hypothesis Hfuel : (k < fuel)%nat.

Lemma Parse_last_pass w' x :
  pass wk = (w', inl (Leave x)) -> parse w = (w', inl x).
Proof.
  intros Hpass. unfold parse.
  rewrite (Parse_upload_job env fuel file mode apiKeyOptional
             languageOptional timeoutSecondsOptional
             checkIntervalSecondsOptional w w1 body contentType req (Ok resp)
             Hfile Hkey Hform Hreq Hdo resp response jobID
             eq_refl Hcode Hdec Hid).
  rewrite getJobResult_unfold.
  replace fuel with (k + S (fuel - S k))%nat by lia.
  rewrite (for_ever_continued _ _ _ _ _ Hcontinued).
  now apply for_ever_leave.
Qed.

(** In the next pass the time is not used up and the status request is
    answered, in world [wk3], with a success status. *)
Context (wk3 : World) (sresp : Response) (statusResponse : json_map).
Let wk2 : World :=
  fst (time_Sleep (X:=loop_exit) env interval
         (fst (time_Since (X:=loop_exit) (now w1) wk))).
Hypothesis Hle : saturate64 (now wk - now w1) <= timeout.
Hypothesis Hsurl : url_error env statusURL = None.
Hypothesis Hsdo :
  client_Do (X:=loop_exit) env client (status_request apiKey BASE_URL jobID) wk2
  = (wk3, inr (Ok sresp)).
Hypothesis Hscode : StatusCode sresp = StatusOK.
Hypothesis Hsdec : json_Decode env (Body sresp) = Ok statusResponse.
Hypothesis Hsuccess : statusResponse !! "status" = Some (JString "SUCCESS").

(** The result request can be built and is answered in world [wk4]. *)
Context (wk4 : World) (r' : result Response).
Hypothesis Hrurl : url_error env resultURL = None.
Hypothesis Hrdo :
  client_Do (X:=loop_exit) env client
    (result_request apiKey BASE_URL jobID mode) wk3
  = (wk4, inr r').

Lemma Run_status_request :
  http_NewRequest env "GET" statusURL None
  = Ok {| Method := "GET"; URL := statusURL; Header := ∅; ReqBody := None |}.
Proof. unfold http_NewRequest. now rewrite Hsurl. Qed.

Lemma Run_result_request :
  http_NewRequest env "GET" resultURL None
  = Ok {| Method := "GET"; URL := resultURL; Header := ∅; ReqBody := None |}.
Proof. unfold http_NewRequest. now rewrite Hrurl. Qed.

Lemma Run_status_do :
  client_Do (X:=loop_exit) env client
    (set_headers {[ "Authorization" := "Bearer " +:+ apiKey ]}
       {| Method := "GET"; URL := statusURL; Header := ∅; ReqBody := None |})
    wk2
  = (wk3, inr (Ok sresp)).
Proof. unfold statusURL. rewrite status_request_eq. exact Hsdo. Qed.

Lemma Run_result_do :
  client_Do (X:=loop_exit) env client
    (set_headers {[ "Authorization" := "Bearer " +:+ apiKey ]}
       {| Method := "GET"; URL := resultURL; Header := ∅; ReqBody := None |})
    wk3
  = (wk4, inr r').
Proof. unfold resultURL. rewrite result_request_eq. exact Hrdo. Qed.

(** The run ends with the fetch. *)
Lemma Parse_fetch_transport_error e :
  r' = Err e -> parse w = (wk4, inl (Return (Err e))).
Proof.
  intros Hr. apply Parse_last_pass.
  exact (pass_fetch_transport_error env client _ statusURL resultURL mode
           timeout interval (now w1) wk _ wk2 wk3 _ _ (Ok sresp)
           eq_refl Hle eq_refl Run_status_request Run_status_do
           sresp statusResponse eq_refl Hscode Hsdec Hsuccess
           wk4 _ r' Run_result_request Run_result_do e Hr).
Qed.

Lemma Parse_fetch_not_ok resp' :
  r' = Ok resp' -> StatusCode resp' <> StatusOK ->
  parse w = (wk4, inl (Return (Err ErrParsingFailed))).
Proof.
  intros Hr Hc. apply Parse_last_pass.
  exact (pass_fetch_not_ok env client _ statusURL resultURL mode
           timeout interval (now w1) wk _ wk2 wk3 _ _ (Ok sresp)
           eq_refl Hle eq_refl Run_status_request Run_status_do
           sresp statusResponse eq_refl Hscode Hsdec Hsuccess
           wk4 _ r' Run_result_request Run_result_do resp' Hr Hc).
Qed.

Lemma Parse_fetch_undecodable resp' e :
  r' = Ok resp' -> StatusCode resp' = StatusOK ->
  json_Decode env (Body resp') = Err e ->
  parse w = (wk4, inl (Return (Err e))).
Proof.
  intros Hr Hc Hd. apply Parse_last_pass.
  exact (pass_fetch_undecodable env client _ statusURL resultURL mode
           timeout interval (now w1) wk _ wk2 wk3 _ _ (Ok sresp)
           eq_refl Hle eq_refl Run_status_request Run_status_do
           sresp statusResponse eq_refl Hscode Hsdec Hsuccess
           wk4 _ r' Run_result_request Run_result_do resp' e Hr Hc Hd).
Qed.

Lemma Parse_fetch_no_field resp' resultResponse :
  r' = Ok resp' -> StatusCode resp' = StatusOK ->
  json_Decode env (Body resp') = Ok resultResponse ->
  (forall s, resultResponse !! mode <> Some (JString s)) ->
  parse w = (wk4, inl (Return (Err ErrParsingFailed))).
Proof.
  intros Hr Hc Hd Hno. apply Parse_last_pass.
  exact (pass_fetch_no_field env client _ statusURL resultURL mode
           timeout interval (now w1) wk _ wk2 wk3 _ _ (Ok sresp)
           eq_refl Hle eq_refl Run_status_request Run_status_do
           sresp statusResponse eq_refl Hscode Hsdec Hsuccess
           wk4 _ r' Run_result_request Run_result_do resp' resultResponse
           Hr Hc Hd Hno).
Qed.

Lemma Parse_fetch_value resp' resultResponse s :
  r' = Ok resp' -> StatusCode resp' = StatusOK ->
  json_Decode env (Body resp') = Ok resultResponse ->
  resultResponse !! mode = Some (JString s) ->
  parse w = (wk4, inl (Return (Ok s))).
Proof.
  intros Hr Hc Hd Hs. apply Parse_last_pass.
  exact (pass_fetch_value env client _ statusURL resultURL mode
           timeout interval (now w1) wk _ wk2 wk3 _ _ (Ok sresp)
           eq_refl Hle eq_refl Run_status_request Run_status_do
           sresp statusResponse eq_refl Hscode Hsdec Hsuccess
           wk4 _ r' Run_result_request Run_result_do resp' resultResponse s
           Hr Hc Hd Hs).
Qed.

(** Whatever the answer, the run returns in the world it arrived in. *)
Lemma Parse_fetch_returns : exists r, parse w = (wk4, inl (Return r)).
Proof.
  destruct (result_cases r') as [[resp' Hr]|[e Hr]];
    [|eexists; now apply (Parse_fetch_transport_error e)].
  destruct (decide (StatusCode resp' = StatusOK)) as [Hc|Hc];
    [|eexists; now apply (Parse_fetch_not_ok resp')].
  destruct (json_Decode env (Body resp')) as [m|e] eqn:Hd;
    [|eexists; now apply (Parse_fetch_undecodable resp' e)].
  destruct (m !! mode) as [[| | |s| |]|] eqn:Hm.
  4: eexists; now apply (Parse_fetch_value resp' m s).
  all: eexists; apply (Parse_fetch_no_field resp' m); auto; congruence.
Qed.

(** The requests of the run: the upload, [k + 1] status requests and the
    result request. *)
Lemma Parse_fetch_requests :
  requests (trace wk4)
  = requests (trace w)
    ++ upload :: replicate (S k) (status_request apiKey BASE_URL jobID)
    ++ [result_request apiKey BASE_URL jobID mode].
Proof.
  rewrite (client_Do_trace _ _ _ _ _ _ Hrdo), requests_app.
  rewrite (client_Do_trace _ _ _ _ _ _ Hsdo), requests_app.
  unfold wk2. cbn [fst time_Sleep time_Since trace advance log].
  rewrite !requests_app.
  rewrite (continued_requests _ _ _ _ _ _ _ _ _ _ _ _ Hcontinued).
  rewrite trace_advance, trace_log, requests_app.
  rewrite (client_Do_trace _ _ _ _ _ _ Hdo), requests_app.
  rewrite requests_after_credential.
  unfold statusURL. rewrite status_request_eq.
  cbn [requests omap list_omap app]. rewrite !app_nil_r.
  rewrite <- !app_assoc. cbn [app].
  change (?x :: replicate k ?y ++ ?z) with (x :: (replicate k y ++ z)).
  f_equal. f_equal.
  rewrite (replicate_S_end k), <- app_assoc. reflexivity.
Qed.

(** C6: once a pass of the poll loop has seen the success status, the
    result request, whose URL ends in the mode [Parse] was called with, is
    sent and the run ends with its answer; it is the last request of the
    run and the only one of its kind, after the upload and the [k + 1]
    status requests.  An answer with a status other than 200 makes [Parse]
    return [ErrParsingFailed]; so does an answer whose body decodes to an
    object in which the field named by the mode is missing or not a string;
    and when that field is a string, [Parse] returns it. *)
Theorem result_fetch_after_success :
  (exists r, outcome parse w = (wk4, Some r)) /\
  requests (trace wk4)
  = requests (trace w)
    ++ upload :: replicate (S k) (status_request apiKey BASE_URL jobID)
    ++ [result_request apiKey BASE_URL jobID mode] /\
  URL (result_request apiKey BASE_URL jobID mode)
  = BASE_URL +:+ "/api/parsing/job/" +:+ jobID +:+ "/result/" +:+ mode /\
  (forall resp',
     r' = Ok resp' -> StatusCode resp' <> StatusOK ->
     outcome parse w = (wk4, Some (Err ErrParsingFailed))) /\
  (forall resp' resultResponse,
     r' = Ok resp' ->
     json_Decode env (Body resp') = Ok resultResponse ->
     (forall s, resultResponse !! mode <> Some (JString s)) ->
     outcome parse w = (wk4, Some (Err ErrParsingFailed))) /\
  (forall resp' resultResponse s,
     r' = Ok resp' -> StatusCode resp' = StatusOK ->
     json_Decode env (Body resp') = Ok resultResponse ->
     resultResponse !! mode = Some (JString s) ->
     outcome parse w = (wk4, Some (Ok s))).
Proof.
  split; [|split; [|split; [|split; [|split]]]].
  - destruct Parse_fetch_returns as [r Hr]. exists r.
    now apply outcome_return.
  - exact Parse_fetch_requests.
  - reflexivity.
  - intros resp' Hr Hc. apply outcome_return.
    now apply (Parse_fetch_not_ok resp').
  - intros resp' m Hr Hd Hno. apply outcome_return.
    destruct (decide (StatusCode resp' = StatusOK)) as [Hc|Hc].
    + now apply (Parse_fetch_no_field resp' m).
    + now apply (Parse_fetch_not_ok resp').
  - intros resp' m s Hr Hc Hd Hs. apply outcome_return.
    now apply (Parse_fetch_value resp' m s).
Qed.

End Run.

Lemma result_fetch_after_success_witness :
  exists w',
    outcome (Parse (Mock.env_of (Mock.succeeds_at 3)) 5 Mock.file1 MARKDOWN
                   (Some "sk") None None None) Mock.w0
    = (w', Some (Ok "hello")) /\
    length (requests (trace w')) = 5%nat.
Proof.
  pose proof (result_fetch_after_success
                (Mock.env_of (Mock.succeeds_at 3)) 5 Mock.file1 MARKDOWN
                (Some "sk") None None None Mock.w0) as H.
  edestruct H with (k := 2%nat) as (_ & Hreqs & _ & _ & _ & Hvalue).
  - discriminate.
  - discriminate.
  - reflexivity.
  - reflexivity.
  - reflexivity.
  - reflexivity.
  - reflexivity.
  - reflexivity.
  - reflexivity.
  - cbv; lia.
  - cbv; discriminate.
  - reflexivity.
  - reflexivity.
  - reflexivity.
  - reflexivity.
  - reflexivity.
  - reflexivity.
  - reflexivity.
  - eexists. split.
    + eapply Hvalue; reflexivity.
    + rewrite Hreqs. reflexivity.
Defined.

(** ** Traces of whole runs *)



Section ParseTraces.

Context (env : Env) (apiKeyOptional : option string) (mode : LlamaParseMode)
        (t ci : Z).

Local Abbreviation parse_events := (parse_events env apiKeyOptional mode t ci).


Lemma parse_events_sleeps evs x :
  parse_events evs x -> Forall (eq ci) (sleeps evs).
Proof.
  unfold sleeps.
  destruct 1 as [| |r Hr|upload r Ha Hr|upload jobID start evs x Ha Hl];
    try (destruct apiKeyOptional; cbn; repeat constructor).
  all: apply (loop_events_sleeps _ _ _ _ _ _ _ Hl).
Qed.



Lemma parse_events_authorized evs x :
  parse_events evs x ->
  Forall (authorized (credential env apiKeyOptional)) (requests evs).
Proof.
  unfold requests.
  destruct 1 as [| |r Hr|upload r Ha Hr|upload jobID start evs x Ha Hl];
    try (destruct apiKeyOptional; cbn; repeat constructor; assumption).
  assert (Hreqs : Forall (authorized (credential env apiKeyOptional))
                         (requests evs)).
  { eapply Forall_impl; [apply (loop_events_requests _ _ _ _ _ _ _ Hl)|].
    intros req [->| ->]; unfold authorized; cbn; apply lookup_singleton_eq. }
  destruct apiKeyOptional; cbn; constructor; assumption.
Qed.

Lemma parse_events_explicit_key evs x key :
  apiKeyOptional = Some key ->
  parse_events evs x ->
  env_reads evs = [] /\ x <> Return (Err ErrNoAPIKey).
Proof.
  intros ->.
  destruct 1 as [| |r Hr|upload r Ha Hr|upload jobID start evs x Ha Hl];
    try discriminate; cbn.
  - split; [reflexivity | discriminate].
  - split; [reflexivity|]. intros [= ->]. contradiction.
  - split; [reflexivity|]. intros [= ->]. contradiction.
  - split; [apply (loop_events_env_reads _ _ _ _ _ _ _ Hl)|].
    intros ->. apply loop_events_result in Hl as [[=]|[]].
Qed.

End ParseTraces.

(** A run that gets to build its upload request sends it first. *)
Lemma Parse_sends_upload env fuel file mode apiKeyOptional languageOptional
    timeoutSecondsOptional checkIntervalSecondsOptional w w' x
    body contentType req :
  file <> [] ->
  has_credential env apiKeyOptional ->
  createMultipartRequest env file languageOptional = Ok (body, contentType) ->
  http_NewRequest env "POST" (BASE_URL +:+ "/api/parsing/upload") (Some body)
  = Ok req ->
  Parse env fuel file mode apiKeyOptional languageOptional
        timeoutSecondsOptional checkIntervalSecondsOptional w = (w', inl x) ->
  exists rest,
    requests (trace w')
    = requests (trace w)
      ++ http.Header_Set "Content-Type" contentType
           (http.Header_Set "Authorization"
              ("Bearer " +:+ credential env apiKeyOptional) req)
      :: rest.
Proof.
  intros Hfile Hkey Hform Hreq.
  set (upload := http.Header_Set "Content-Type" contentType _).
  destruct (client_Do_spec (X:=fn_exit) env
              {| Timeout := seconds (or_default DEFAULT_MAX_TIMEOUT_SECONDS
                                                timeoutSecondsOptional) |}
              upload (after_credential apiKeyOptional w))
    as (w1 & r & Hdo & Ht & _).
  assert (Hreqs : requests (trace w1) = requests (trace w) ++ [upload]).
  { rewrite Ht, requests_app, requests_after_credential. reflexivity. }
  assert (Hstop : forall y, Parse env fuel file mode apiKeyOptional
                    languageOptional timeoutSecondsOptional
                    checkIntervalSecondsOptional w = (w1, inl y) ->
                  Parse env fuel file mode apiKeyOptional
                    languageOptional timeoutSecondsOptional
                    checkIntervalSecondsOptional w = (w', inl x) ->
                  exists rest,
                    requests (trace w') = requests (trace w) ++ upload :: rest).
  { intros y -> [= <- _]. exists []. exact Hreqs. }
  destruct r as [resp|e].
  2:{ eapply Hstop, Parse_upload_transport_error; eauto. }
  destruct (decide (StatusCode resp = StatusOK)) as [Hcode|Hcode].
  2:{ eapply Hstop, Parse_upload_not_ok; eauto. }
  destruct (json_Decode env (Body resp)) as [response|e] eqn:Hdec.
  2:{ eapply Hstop, Parse_upload_undecodable; eauto. }
  destruct (response !! "id") as [[| | |jobID| |]|] eqn:Hid.
  4:{ rewrite (Parse_upload_job env fuel file mode apiKeyOptional
                 languageOptional timeoutSecondsOptional
                 checkIntervalSecondsOptional w w1 body _ req (Ok resp)
                 Hfile Hkey Hform Hreq Hdo resp response jobID
                 eq_refl Hcode Hdec Hid).
      intros H. apply getJobResult_events in H as (evs & Hevs & _).
      exists (requests (EvNow (now w1) :: evs)).
      rewrite Hevs, requests_app, Hreqs, <- app_assoc. reflexivity. }
  all: eapply Hstop, Parse_upload_no_id; eauto; rewrite Hid; congruence.
Qed.

(** ** The checks before the upload *)

(** C7: for a file of length zero, [Parse] returns [ErrEmptyFile] whatever
    the other arguments, the environment and the fuel are, and it leaves
    the world as it found it: nothing is read, nothing is sent. *)
Theorem Parse_empty_input env fuel file mode apiKeyOptional languageOptional
    timeoutSecondsOptional checkIntervalSecondsOptional w :
  length file = 0%nat ->
  outcome (Parse env fuel file mode apiKeyOptional languageOptional
                 timeoutSecondsOptional checkIntervalSecondsOptional) w
  = (w, Some (Err ErrEmptyFile)).
Proof.
  intros Hlen. apply outcome_return, Parse_empty_file.
  now apply length_zero_iff_nil.
Qed.

Lemma Parse_empty_input_witness :
  outcome (Parse (Mock.mk_env "key-of-the-environment" (Mock.succeeds_at 1)
                              100000000)
                 5 [] MARKDOWN (Some "sk") (Some "en") (Some 10) (Some 1))
          Mock.w0
  = (Mock.w0, Some (Err ErrEmptyFile)).
Proof.
  apply (Parse_empty_input
           (Mock.mk_env "key-of-the-environment" (Mock.succeeds_at 1)
                        100000000)
           5 [] MARKDOWN (Some "sk") (Some "en") (Some 10) (Some 1) Mock.w0).
  reflexivity.
Defined.

(** C8, as stated, fails on an empty file: with the credential omitted and
    none in the environment, [Parse] returns [ErrEmptyFile], because the
    file is checked first (lines 161-163). *)
Lemma missing_credential_empty_file :
  let env := Mock.env_of Mock.always_pending in
  let run := outcome (Parse env 1 [] MARKDOWN None None None None) Mock.w0 in
  getenv env API_KEY_VARIABLE = "" /\
  snd run = Some (Err ErrEmptyFile) /\
  snd run <> Some (Err ErrNoAPIKey).
Proof. repeat split; discriminate. Qed.

(** C8, amended: for a file that is not empty, with the credential omitted
    and none in the environment, [Parse] returns [ErrNoAPIKey]; the only
    event of the run is the reading of the environment, so no request is
    sent. *)
Theorem Parse_missing_credential env fuel file mode languageOptional
    timeoutSecondsOptional checkIntervalSecondsOptional w :
  file <> [] ->
  getenv env API_KEY_VARIABLE = "" ->
  exists w',
    outcome (Parse env fuel file mode None languageOptional
                   timeoutSecondsOptional checkIntervalSecondsOptional) w
    = (w', Some (Err ErrNoAPIKey)) /\
    trace w' = trace w ++ [EvGetenv API_KEY_VARIABLE] /\
    requests (trace w') = requests (trace w).
Proof.
  intros Hfile Hunset. eexists. split; [|split].
  - apply outcome_return. now apply Parse_no_key.
  - reflexivity.
  - rewrite trace_log, requests_app. apply app_nil_r.
Qed.

Lemma Parse_missing_credential_witness :
  exists w',
    outcome (Parse (Mock.env_of Mock.always_pending) 1 Mock.file1 MARKDOWN
                   None None None None) Mock.w0
    = (w', Some (Err ErrNoAPIKey)) /\
    trace w' = trace Mock.w0 ++ [EvGetenv API_KEY_VARIABLE] /\
    requests (trace w') = requests (trace Mock.w0).
Proof.
  apply (Parse_missing_credential (Mock.env_of Mock.always_pending) 1
           Mock.file1 MARKDOWN None None None Mock.w0).
  - discriminate.
  - reflexivity.
Defined.

(** ** The upload *)

(** C5: when the upload is answered with a status other than 200, [Parse]
    returns [ErrParsingFailed]; so it does when the body of the answer
    decodes to an object in which ["id"] is missing or not a string.  In
    both cases the run ends in the world the answer arrived in, where the
    upload is the one request the run has sent: no status request
    follows. *)
Theorem upload_failure_is_ParsingFailed env fuel file mode apiKeyOptional
    languageOptional timeoutSecondsOptional checkIntervalSecondsOptional
    w w1 body contentType req resp :
  let parse :=
    Parse env fuel file mode apiKeyOptional languageOptional
          timeoutSecondsOptional checkIntervalSecondsOptional in
  let upload :=
    http.Header_Set "Content-Type" contentType
      (http.Header_Set "Authorization"
         ("Bearer " +:+ credential env apiKeyOptional) req) in
  file <> [] ->
  has_credential env apiKeyOptional ->
  createMultipartRequest env file languageOptional = Ok (body, contentType) ->
  http_NewRequest env "POST" (BASE_URL +:+ "/api/parsing/upload") (Some body)
  = Ok req ->
  client_Do (X:=fn_exit) env
    {| Timeout := seconds (or_default DEFAULT_MAX_TIMEOUT_SECONDS
                                      timeoutSecondsOptional) |}
    upload (after_credential apiKeyOptional w)
  = (w1, inr (Ok resp)) ->
  (StatusCode resp <> StatusOK ->
   outcome parse w = (w1, Some (Err ErrParsingFailed))) /\
  (forall response,
     json_Decode env (Body resp) = Ok response ->
     (forall s, response !! "id" <> Some (JString s)) ->
     outcome parse w = (w1, Some (Err ErrParsingFailed))) /\
  requests (trace w1) = requests (trace w) ++ [upload].
Proof.
  intros parse upload Hfile Hkey Hform Hreq Hdo.
  assert (Hbad : StatusCode resp <> StatusOK ->
                 outcome parse w = (w1, Some (Err ErrParsingFailed))).
  { intros Hcode. apply outcome_return.
    eapply Parse_upload_not_ok; eauto. }
  split; [exact Hbad|]. split.
  - intros response Hdec Hno.
    destruct (decide (StatusCode resp = StatusOK)) as [Hcode|Hcode];
      [|now apply Hbad].
    apply outcome_return. eapply Parse_upload_no_id; eauto.
  - apply client_Do_trace in Hdo.
    rewrite Hdo, requests_app, requests_after_credential. reflexivity.
Qed.

Lemma upload_failure_is_ParsingFailed_witness :
  exists w1,
    outcome (Parse (Mock.env_of (Mock.upload_answers 500 "")) 3 Mock.file1
                   MARKDOWN (Some "sk") None None None) Mock.w0
    = (w1, Some (Err ErrParsingFailed)) /\
    length (requests (trace w1)) = 1%nat.
Proof.
  pose proof (upload_failure_is_ParsingFailed
                (Mock.env_of (Mock.upload_answers 500 "")) 3 Mock.file1
                MARKDOWN (Some "sk") None None None Mock.w0) as H.
  edestruct H as (Hbad & _ & Hreqs).
  - discriminate.
  - discriminate.
  - reflexivity.
  - reflexivity.
  - reflexivity.
  - eexists. split.
    + apply Hbad. discriminate.
    + now rewrite Hreqs.
Defined.

(** ** The status check *)

Lemma poll_success_iff_SUCCESS_witness :
  let env := Mock.env_of Mock.always_pending in
  let pass :=
    getJobResult_pass env {| Timeout := seconds 2 |}
      {[ "Authorization" := "Bearer sk" ]} Mock.status_url
      (Mock.status_url +:+ "/result/markdown") MARKDOWN
      (seconds 2) (seconds 1) 0 in
  snd (pass Mock.w0) = inl Continue <->
  ({[ "status" := JString "PENDING" ]} : json_map) !! "status"
  <> Some (JString "SUCCESS").
Proof.
  intros env pass.
  eapply proj1.
  eapply (poll_success_iff_SUCCESS env {| Timeout := seconds 2 |}
            {[ "Authorization" := "Bearer sk" ]} Mock.status_url
            (Mock.status_url +:+ "/result/markdown") MARKDOWN
            (seconds 2) (seconds 1) 0 Mock.w0).
  - reflexivity.
  - cbv. discriminate.
  - reflexivity.
  - reflexivity.
  - reflexivity.
  - reflexivity.
  - reflexivity.
  - reflexivity.
Defined.

(** The comparison with ["SUCCESS"] is exact: a server that answers
    ["success"] is polled until the time is used up. *)
Example lowercase_success_is_not_success :
  let env := Mock.env_of (Mock.status_answers 200
                            (Mock.object1 "status" "success")) in
  let run := outcome (Parse env 5 Mock.file1 MARKDOWN (Some "sk") None
                            (Some 2) (Some 1)) Mock.w0 in
  snd run = Some (Err ErrTimeoutReached) /\
  length (requests (trace (fst run))) = 3%nat.
Proof. vm_compute. split; reflexivity. Qed.

(** C3, as stated, fails on a status answer whose body does not decode:
    the loop does not retry, it returns the decoder's error (lines
    101-104).  Here the first status request is answered with status 200
    and a truncated object; the run has fuel and time for more passes, but
    ends after the upload and one status request. *)
Lemma malformed_status_body_aborts :
  let env := Mock.env_of (Mock.status_answers 200 Mock.truncated) in
  let run := outcome (Parse env 5 Mock.file1 MARKDOWN (Some "sk") None
                            None None) Mock.w0 in
  json_decode env Mock.truncated = inl "unexpected EOF" /\
  snd run = Some (Err (DecodeError "unexpected EOF")) /\
  length (requests (trace (fst run))) = 2%nat.
Proof. vm_compute. repeat split; reflexivity. Qed.

Lemma status_check_error_policy_witness :
  let env := Mock.env_of (Mock.status_answers 503 "") in
  let pass :=
    getJobResult_pass env {| Timeout := seconds 2 |}
      {[ "Authorization" := "Bearer sk" ]} Mock.status_url
      (Mock.status_url +:+ "/result/markdown") MARKDOWN
      (seconds 2) (seconds 1) 0 in
  exists w3, pass Mock.w0 = (w3, inl Continue).
Proof.
  intros env pass.
  edestruct (status_check_error_policy env {| Timeout := seconds 2 |}
               {[ "Authorization" := "Bearer sk" ]} Mock.status_url
               (Mock.status_url +:+ "/result/markdown") MARKDOWN
               (seconds 2) (seconds 1) 0 Mock.w0)
    as (_ & Hnot_ok & _).
  - reflexivity.
  - cbv. discriminate.
  - reflexivity.
  - reflexivity.
  - reflexivity.
  - eexists. eapply Hnot_ok; [reflexivity | discriminate].
Defined.

(** ** Bodies of an unexpected shape *)

(** C4, as stated, fails on a body that is not JSON: [Parse] returns the
    error of the decoder, not [ErrParsingFailed] (lines 212-215 for the
    upload, 130-133 for the result).  Here the upload, resp. the result
    request, is answered with status 200 and a truncated object. *)
Lemma malformed_body_not_ParsingFailed :
  let at_upload :=
    outcome (Parse (Mock.env_of (Mock.upload_answers 200 Mock.truncated)) 5
                   Mock.file1 MARKDOWN (Some "sk") None None None) Mock.w0 in
  let at_result :=
    outcome (Parse (Mock.env_of (Mock.result_answers 200 Mock.truncated)) 5
                   Mock.file1 MARKDOWN (Some "sk") None None None) Mock.w0 in
  Mock.decode Mock.truncated = inl "unexpected EOF" /\
  snd at_upload = Some (Err (DecodeError "unexpected EOF")) /\
  snd at_upload <> Some (Err ErrParsingFailed) /\
  snd at_result = Some (Err (DecodeError "unexpected EOF")) /\
  snd at_result <> Some (Err ErrParsingFailed).
Proof. vm_compute. repeat split; discriminate. Qed.

(** C4, amended: at the upload and at the result stage alike, an answer
    with status 200 whose body decodes to an object in which the expected
    field (["id"], resp. the one named by the mode) is missing or not a
    string makes [Parse] return [ErrParsingFailed]; a body that does not
    decode makes [Parse] return the decoder's error as it is. *)
Theorem unexpected_shape_is_ParsingFailed :
  (forall env fuel file mode apiKeyOptional languageOptional
          timeoutSecondsOptional checkIntervalSecondsOptional
          w w1 body contentType req resp,
     let parse :=
       Parse env fuel file mode apiKeyOptional languageOptional
             timeoutSecondsOptional checkIntervalSecondsOptional in
     let timeout :=
       seconds (or_default DEFAULT_MAX_TIMEOUT_SECONDS
                           timeoutSecondsOptional) in
     let upload :=
       http.Header_Set "Content-Type" contentType
         (http.Header_Set "Authorization"
            ("Bearer " +:+ credential env apiKeyOptional) req) in
     file <> [] ->
     has_credential env apiKeyOptional ->
     createMultipartRequest env file languageOptional
     = Ok (body, contentType) ->
     http_NewRequest env "POST" (BASE_URL +:+ "/api/parsing/upload")
                     (Some body) = Ok req ->
     client_Do (X:=fn_exit) env {| Timeout := timeout |} upload
               (after_credential apiKeyOptional w)
     = (w1, inr (Ok resp)) ->
     StatusCode resp = StatusOK ->
     (forall response,
        json_Decode env (Body resp) = Ok response ->
        (forall s, response !! "id" <> Some (JString s)) ->
        outcome parse w = (w1, Some (Err ErrParsingFailed))) /\
     (forall e,
        json_Decode env (Body resp) = Err e ->
        outcome parse w = (w1, Some (Err e))))
  /\
  (forall env fuel file mode apiKeyOptional languageOptional
          timeoutSecondsOptional checkIntervalSecondsOptional
          w w1 body contentType req resp response jobID
          k wk wk3 sresp statusResponse wk4 resp',
     let parse :=
       Parse env fuel file mode apiKeyOptional languageOptional
             timeoutSecondsOptional checkIntervalSecondsOptional in
     let apiKey := credential env apiKeyOptional in
     let timeout :=
       seconds (or_default DEFAULT_MAX_TIMEOUT_SECONDS
                           timeoutSecondsOptional) in
     let interval :=
       seconds (or_default DEFAULT_CHECK_INTERVAL_SECONDS
                           checkIntervalSecondsOptional) in
     let client := {| Timeout := timeout |} in
     let upload :=
       http.Header_Set "Content-Type" contentType
         (http.Header_Set "Authorization" ("Bearer " +:+ apiKey) req) in
     let statusURL := BASE_URL +:+ "/api/parsing/job/" +:+ jobID in
     let resultURL :=
       BASE_URL +:+ "/api/parsing/job/" +:+ jobID +:+ "/result/" +:+ mode in
     let pass :=
       getJobResult_pass env client
         {[ "Authorization" := "Bearer " +:+ apiKey ]}
         statusURL resultURL mode timeout interval (now w1) in
     let wk2 :=
       fst (time_Sleep (X:=loop_exit) env interval
              (fst (time_Since (X:=loop_exit) (now w1) wk))) in
     (* the upload is answered with a job identifier *)
     file <> [] ->
     has_credential env apiKeyOptional ->
     createMultipartRequest env file languageOptional
     = Ok (body, contentType) ->
     http_NewRequest env "POST" (BASE_URL +:+ "/api/parsing/upload")
                     (Some body) = Ok req ->
     client_Do (X:=fn_exit) env client upload
               (after_credential apiKeyOptional w)
     = (w1, inr (Ok resp)) ->
     StatusCode resp = StatusOK ->
     json_Decode env (Body resp) = Ok response ->
     response !! "id" = Some (JString jobID) ->
     (* the loop starts once the clock is read, and [k] passes end in
        [continue] *)
     continued k pass
       (advance (Z.pos (clock_step env w1)) (log (EvNow (now w1)) w1))
     = Some wk ->
     (k < fuel)%nat ->
     (* the next one sees the success status *)
     saturate64 (now wk - now w1) <= timeout ->
     url_error env statusURL = None ->
     client_Do (X:=loop_exit) env client
               (status_request apiKey BASE_URL jobID) wk2
     = (wk3, inr (Ok sresp)) ->
     StatusCode sresp = StatusOK ->
     json_Decode env (Body sresp) = Ok statusResponse ->
     statusResponse !! "status" = Some (JString "SUCCESS") ->
     (* the result request is answered with status 200 *)
     url_error env resultURL = None ->
     client_Do (X:=loop_exit) env client
               (result_request apiKey BASE_URL jobID mode) wk3
     = (wk4, inr (Ok resp')) ->
     StatusCode resp' = StatusOK ->
     (forall resultResponse,
        json_Decode env (Body resp') = Ok resultResponse ->
        (forall s, resultResponse !! mode <> Some (JString s)) ->
        outcome parse w = (wk4, Some (Err ErrParsingFailed))) /\
     (forall e,
        json_Decode env (Body resp') = Err e ->
        outcome parse w = (wk4, Some (Err e)))).
Proof.
  split.
  - intros env fuel file mode apiKeyOptional languageOptional
      timeoutSecondsOptional checkIntervalSecondsOptional
      w w1 body contentType req resp parse timeout upload
      Hfile Hkey Hform Hreq Hdo Hcode.
    split.
    + intros response Hdec Hno. apply outcome_return.
      eapply Parse_upload_no_id; eauto.
    + intros e Hdec. apply outcome_return.
      eapply Parse_upload_undecodable; eauto.
  - intros env fuel file mode apiKeyOptional languageOptional
      timeoutSecondsOptional checkIntervalSecondsOptional
      w w1 body contentType req resp response jobID
      k wk wk3 sresp statusResponse wk4 resp'
      parse apiKey timeout interval client upload statusURL resultURL pass wk2
      Hfile Hkey Hform Hreq Hdo Hcode Hdec Hid Hcont Hfuel
      Hle Hsurl Hsdo Hscode Hsdec Hsuccess Hrurl Hrdo Hrcode.
    split.
    + intros resultResponse Hrdec Hno. apply outcome_return.
      exact (Parse_fetch_no_field env fuel file mode apiKeyOptional
               languageOptional timeoutSecondsOptional
               checkIntervalSecondsOptional w w1 body contentType req resp
               response jobID Hfile Hkey Hform Hreq Hdo Hcode Hdec Hid
               k wk Hcont Hfuel wk3 sresp statusResponse
               Hle Hsurl Hsdo Hscode Hsdec Hsuccess
               wk4 (Ok resp') Hrurl Hrdo resp' resultResponse
               eq_refl Hrcode Hrdec Hno).
    + intros e Hrdec. apply outcome_return.
      exact (Parse_fetch_undecodable env fuel file mode apiKeyOptional
               languageOptional timeoutSecondsOptional
               checkIntervalSecondsOptional w w1 body contentType req resp
               response jobID Hfile Hkey Hform Hreq Hdo Hcode Hdec Hid
               k wk Hcont Hfuel wk3 sresp statusResponse
               Hle Hsurl Hsdo Hscode Hsdec Hsuccess
               wk4 (Ok resp') Hrurl Hrdo resp' e
               eq_refl Hrcode Hrdec).
Qed.

Lemma unexpected_shape_is_ParsingFailed_witness :
  (exists w1,
     outcome (Parse (Mock.env_of (Mock.upload_answers 200 "{}")) 5
                    Mock.file1 MARKDOWN (Some "sk") None None None) Mock.w0
     = (w1, Some (Err ErrParsingFailed))) /\
  (exists w4,
     outcome (Parse (Mock.env_of (Mock.result_answers 200
                                    (Mock.object1 "text" "hello"))) 5
                    Mock.file1 MARKDOWN (Some "sk") None None None) Mock.w0
     = (w4, Some (Err ErrParsingFailed))).
Proof.
  split.
  - edestruct (proj1 unexpected_shape_is_ParsingFailed
                 (Mock.env_of (Mock.upload_answers 200 "{}")) 5%nat
                 Mock.file1 MARKDOWN (Some "sk") None None None Mock.w0)
      as (Hshape & _).
    + discriminate.
    + discriminate.
    + reflexivity.
    + reflexivity.
    + reflexivity.
    + reflexivity.
    + eexists. eapply Hshape; [reflexivity|]. intros s. discriminate.
  - edestruct (proj2 unexpected_shape_is_ParsingFailed
                 (Mock.env_of (Mock.result_answers 200
                                 (Mock.object1 "text" "hello"))) 5%nat
                 Mock.file1 MARKDOWN (Some "sk") None None None Mock.w0)
      with (k := 0%nat) as (Hshape & _).
    + discriminate.
    + discriminate.
    + reflexivity.
    + reflexivity.
    + reflexivity.
    + reflexivity.
    + reflexivity.
    + reflexivity.
    + reflexivity.
    + cbv; lia.
    + cbv; discriminate.
    + reflexivity.
    + reflexivity.
    + reflexivity.
    + reflexivity.
    + reflexivity.
    + reflexivity.
    + reflexivity.
    + reflexivity.
    + eexists. eapply Hshape; [reflexivity|]. intros s. discriminate.
Defined.

(** ** The time check *)



(** ** Defaults *)




(** Supplied values replace the defaults: two seconds of total time and
    polls every second end in [ErrTimeoutReached] after two polls. *)
Example Parse_supplied_timeout :
  let run :=
    Parse (Mock.env_of Mock.always_pending) 5 Mock.file1 MARKDOWN (Some "sk")
          None (Some 2) (Some 1) Mock.w0 in
  snd run = inl (Return (Err ErrTimeoutReached)) /\
  client_timeouts (trace (fst run)) = replicate 3 (2 * 1000000000) /\
  sleeps (trace (fst run)) = replicate 2 1000000000 /\
  now (fst run) = 2300000050.
Proof. vm_compute. repeat split; reflexivity. Qed.

(** ** An explicit empty credential *)

(** C10: called with the empty string as its credential, [Parse] does not
    read the environment and does not return [ErrNoAPIKey]; every request
    it sends carries the header [Authorization: Bearer ] with the empty
    credential, and for a file that is not empty the upload request, once
    built, is sent with it, as the first request of the run. *)
Theorem explicit_empty_credential_is_used env fuel file mode languageOptional
    timeoutSecondsOptional checkIntervalSecondsOptional w w' x :
  Parse env fuel file mode (Some "") languageOptional
        timeoutSecondsOptional checkIntervalSecondsOptional w = (w', inl x) ->
  x <> Return (Err ErrNoAPIKey) /\
  exists evs,
    trace w' = trace w ++ evs /\
    env_reads evs = [] /\
    Forall (fun req => Header req !! "Authorization" = Some ["Bearer "])
           (requests evs) /\
    (forall body contentType req,
       file <> [] ->
       createMultipartRequest env file languageOptional
       = Ok (body, contentType) ->
       http_NewRequest env "POST" (BASE_URL +:+ "/api/parsing/upload")
                       (Some body) = Ok req ->
       exists rest,
         requests evs
         = http.Header_Set "Content-Type" contentType
             (http.Header_Set "Authorization" "Bearer " req)
           :: rest).
Proof.
  intros H. pose proof H as Hsend.
  apply Parse_events in H as (evs & Ht & Hp).
  destruct (parse_events_explicit_key _ _ _ _ _ _ _ "" eq_refl Hp)
    as [Hreads Hx].
  split; [exact Hx|]. exists evs. split; [exact Ht|].
  split; [exact Hreads|]. split.
  - exact (parse_events_authorized _ _ _ _ _ _ _ Hp).
  - intros body contentType req Hfile Hform Hreq.
    assert (Hkey : has_credential env (Some "")) by discriminate.
    destruct (Parse_sends_upload _ _ _ _ _ _ _ _ _ _ _ _ _ _
                Hfile Hkey Hform Hreq Hsend) as [rest Hrest].
    exists rest. rewrite Ht, requests_app in Hrest.
    now apply app_inv_head in Hrest.
Qed.

Lemma explicit_empty_credential_is_used_witness :
  let run :=
    Parse (Mock.mk_env "key-of-the-environment" (Mock.succeeds_at 1) 100000000)
          5 Mock.file1 MARKDOWN (Some "") None None None Mock.w0 in
  snd run = inl (Return (Ok "hello")) /\
  length (requests (trace (fst run))) = 3%nat /\
  env_reads (trace (fst run)) = [] /\
  Forall (fun req => Header req !! "Authorization" = Some ["Bearer "])
         (requests (trace (fst run))).
Proof.
  intros run. split; [reflexivity|]. split; [reflexivity|].
  destruct (explicit_empty_credential_is_used
              (Mock.mk_env "key-of-the-environment" (Mock.succeeds_at 1)
                           100000000)
              5 Mock.file1 MARKDOWN None None None Mock.w0 (fst run)
              (Return (Ok "hello")))
    as (_ & evs & Ht & Hreads & Hauth & _).
  - reflexivity.
  - cbn [trace Mock.w0 app] in Ht. rewrite Ht. split; assumption.
Defined.

(** * More of the code *)

(** ** Every run follows one of the paths *)

Lemma pass_status_unbuilt env client headers statusURL resultURL mode
    timeout ci start w e :
  saturate64 (now w - start) <= timeout ->
  http_NewRequest env "GET" statusURL None = Err e ->
  getJobResult_pass env client headers statusURL resultURL mode timeout ci
                    start w
  = (slept env ci start w, inl (Leave (Return (Err e)))).
Proof.
  intros Hle Hreq.
  unfold getJobResult_pass, bind, try, pure, return_, leave, from_fn,
    loop_exits, slept, time_Since; cbv beta. cbn [fst].
  replace (saturate64 (now w - start) >? timeout)%Z with false
    by (symmetry; rewrite Z.gtb_ltb; now apply Z.ltb_ge).
  unfold time_Sleep. now rewrite Hreq.
Qed.

Lemma pass_path_sound env client headers statusURL resultURL mode
    timeout ci start w w' x :
  getJobResult_pass env client headers statusURL resultURL mode timeout ci
                    start w = (w', inl x) ->
  pass_path env client headers statusURL resultURL mode timeout ci start
            w w' x.
Proof.
  intros H.
  destruct (Z_lt_le_dec timeout (saturate64 (now w - start))) as [Hlt|Hle].
  { rewrite pass_timed_out in H by exact Hlt. injection H as <- <-.
    now apply path_timeout. }
  destruct (http_NewRequest env "GET" statusURL None) as [req|e] eqn:Hreq.
  2:{ rewrite (pass_status_unbuilt _ _ _ _ _ _ _ _ _ _ e Hle Hreq) in H.
      injection H as <- <-. now apply path_status_unbuilt. }
  destruct (client_Do_spec (X:=loop_exit) env client (set_headers headers req)
              (slept env ci start w)) as (w3 & r & Hdo & _).
  destruct r as [resp|e].
  2:{ rewrite (pass_transport_error env client headers statusURL resultURL mode timeout ci
          start w _ _ w3 _ req _ eq_refl Hle eq_refl Hreq Hdo e eq_refl) in H.
      injection H as <- <-. eapply path_status_failed; eauto. }
  destruct (decide (StatusCode resp = StatusOK)) as [Hcode|Hcode].
  2:{ rewrite (pass_not_ok env client headers statusURL resultURL mode timeout ci
          start w _ _ w3 _ req _ eq_refl Hle eq_refl Hreq Hdo resp eq_refl Hcode) in H.
      injection H as <- <-. eapply path_status_not_ok; eauto. }
  destruct (json_Decode env (Body resp)) as [m|e] eqn:Hdec.
  2:{ rewrite (pass_undecodable env client headers statusURL resultURL mode timeout ci
          start w _ _ w3 _ req _ eq_refl Hle eq_refl Hreq Hdo resp e eq_refl Hcode Hdec) in H.
      injection H as <- <-. eapply path_status_undecodable; eauto. }
  assert (Hcases : m !! "status" = Some (JString "SUCCESS")
                   \/ m !! "status" <> Some (JString "SUCCESS")).
  { destruct (m !! "status") as [[| | |s| |]|]; try (right; congruence).
    destruct (String.eqb_spec s "SUCCESS") as [->|]; [now left|].
    right. congruence. }
  destruct Hcases as [Hs|Hs].
  2:{ rewrite (pass_not_success env client headers statusURL resultURL mode timeout ci
          start w _ _ w3 _ req _ eq_refl Hle eq_refl Hreq Hdo resp m eq_refl Hcode Hdec Hs) in H.
      injection H as <- <-. eapply path_status_other; eauto. }
  destruct (http_NewRequest env "GET" resultURL None) as [req'|e] eqn:Hreq'.
  2:{ rewrite (pass_no_result_request env client headers statusURL resultURL mode timeout ci
          start w _ _ w3 _ req _ eq_refl Hle eq_refl Hreq Hdo
          resp m eq_refl Hcode Hdec Hs e Hreq') in H.
      injection H as <- <-. eapply path_success; eauto.
      now apply fetch_unbuilt. }
  destruct (client_Do_spec (X:=loop_exit) env client
              (set_headers headers req') w3) as (w4 & r' & Hdo' & _).
  destruct r' as [resp'|e].
  2:{ rewrite (pass_fetch_transport_error env client headers statusURL resultURL mode timeout ci
          start w _ _ w3 _ req _ eq_refl Hle eq_refl Hreq Hdo
          resp m eq_refl Hcode Hdec Hs
          w4 req' _ Hreq' Hdo' e eq_refl) in H.
      injection H as <- <-. eapply path_success; eauto.
      eapply fetch_failed; eauto. }
  destruct (decide (StatusCode resp' = StatusOK)) as [Hcode'|Hcode'].
  2:{ rewrite (pass_fetch_not_ok env client headers statusURL resultURL mode timeout ci
          start w _ _ w3 _ req _ eq_refl Hle eq_refl Hreq Hdo
          resp m eq_refl Hcode Hdec Hs
          w4 req' _ Hreq' Hdo' resp' eq_refl Hcode') in H.
      injection H as <- <-. eapply path_success; eauto.
      eapply fetch_not_ok; eauto. }
  destruct (json_Decode env (Body resp')) as [m'|e] eqn:Hdec'.
  2:{ rewrite (pass_fetch_undecodable env client headers statusURL resultURL mode timeout ci
          start w _ _ w3 _ req _ eq_refl Hle eq_refl Hreq Hdo
          resp m eq_refl Hcode Hdec Hs
          w4 req' _ Hreq' Hdo' resp' e eq_refl Hcode' Hdec') in H.
      injection H as <- <-. eapply path_success; eauto.
      eapply fetch_undecodable; eauto. }
  destruct (m' !! mode) as [[| | |s| |]|] eqn:Hm.
  4:{ rewrite (pass_fetch_value env client headers statusURL resultURL mode timeout ci
          start w _ _ w3 _ req _ eq_refl Hle eq_refl Hreq Hdo
          resp m eq_refl Hcode Hdec Hs
          w4 req' _ Hreq' Hdo' resp' m' s eq_refl Hcode' Hdec' Hm) in H.
      injection H as <- <-. eapply path_success; eauto.
      eapply fetch_value; eauto. }
  all: assert (Hno : forall s, m' !! mode <> Some (JString s))
         by (rewrite Hm; congruence).
  all: rewrite (pass_fetch_no_field env client headers statusURL resultURL mode timeout ci
          start w _ _ w3 _ req _ eq_refl Hle eq_refl Hreq Hdo
          resp m eq_refl Hcode Hdec Hs
          w4 req' _ Hreq' Hdo' resp' m' eq_refl Hcode' Hdec' Hno) in H.
  all: injection H as <- <-; eapply path_success; eauto.
  all: eapply fetch_no_field; eauto.
Qed.

Lemma parse_path_sound env fuel file mode apiKeyOptional languageOptional
    timeoutSecondsOptional checkIntervalSecondsOptional w w' x :
  Parse env fuel file mode apiKeyOptional languageOptional
        timeoutSecondsOptional checkIntervalSecondsOptional w = (w', inl x) ->
  parse_path env fuel file mode apiKeyOptional languageOptional
             timeoutSecondsOptional checkIntervalSecondsOptional w w' x.
Proof.
  intros H.
  destruct (decide (file = [])) as [Hfile|Hfile].
  { rewrite Parse_empty_file in H by exact Hfile. injection H as <- <-.
    now apply parse_path_empty. }
  assert (Hcases : (apiKeyOptional = None /\ getenv env API_KEY_VARIABLE = "")
                   \/ has_credential env apiKeyOptional).
  { unfold has_credential. destruct apiKeyOptional as [key|]; [now right|].
    destruct (String.eqb_spec (getenv env API_KEY_VARIABLE) ""); auto. }
  destruct Hcases as [[Hnone Hunset]|Hkey].
  { rewrite (Parse_no_key _ _ _ _ _ _ _ _ _ Hfile Hnone Hunset) in H.
    injection H as <- <-. now apply parse_path_no_key. }
  destruct (createMultipartRequest_ok env file languageOptional)
    as [body Hform].
  destruct (http_NewRequest env "POST" (BASE_URL +:+ "/api/parsing/upload")
              (Some body)) as [req|e] eqn:Hreq.
  2:{ erewrite Parse_no_upload_request in H by eassumption.
      injection H as <- <-. eapply parse_path_unbuilt; eauto. }
  destruct (client_Do_spec (X:=fn_exit) env
              {| Timeout := seconds (or_default DEFAULT_MAX_TIMEOUT_SECONDS
                                                timeoutSecondsOptional) |}
              (upload_request (credential env apiKeyOptional)
                 ("multipart/form-data; boundary=" +:+ random_boundary env)
                 req)
              (after_credential apiKeyOptional w))
    as (w1 & r & Hdo & _).
  eapply parse_path_uploaded;
    [exact Hfile | exact Hkey | exact Hform | exact Hreq | exact Hdo |].
  destruct r as [resp|e].
  2:{ erewrite Parse_upload_transport_error in H by eauto.
      injection H as <- <-. constructor. }
  destruct (decide (StatusCode resp = StatusOK)) as [Hcode|Hcode].
  2:{ erewrite Parse_upload_not_ok in H by eauto.
      injection H as <- <-. now constructor. }
  destruct (json_Decode env (Body resp)) as [response|e] eqn:Hdec.
  2:{ erewrite Parse_upload_undecodable in H by eauto.
      injection H as <- <-. now apply upload_undecodable. }
  destruct (response !! "id") as [[| | |jobID| |]|] eqn:Hid.
  4:{ rewrite (Parse_upload_job env fuel file mode apiKeyOptional
                 languageOptional timeoutSecondsOptional
                 checkIntervalSecondsOptional w w1 body _ req (Ok resp)
                 Hfile Hkey Hform Hreq Hdo resp response jobID
                 eq_refl Hcode Hdec Hid) in H.
      eapply upload_polled; eauto. }
  all: assert (Hno : forall s, response !! "id" <> Some (JString s))
         by (rewrite Hid; congruence).
  all: erewrite Parse_upload_no_id in H by eauto.
  all: injection H as <- <-; eapply upload_no_id; eauto.
Qed.

(** ** Loops and fuel *)

(** A loop that returns has made some passes that went on and one that
    left. *)
Lemma for_ever_returns_inv fuel body w w' r :
  for_ever fuel body w = (w', inl (Return r)) ->
  exists k wk,
    (k < fuel)%nat /\ continued k body w = Some wk /\
    body wk = (w', inl (Leave (Return r))).
Proof.
  revert w. induction fuel as [|fuel IH]; intros w; simpl; [discriminate|].
  destruct (body w) as [w1 [[|y]|v]] eqn:E; [| |destruct v].
  - intros H. apply IH in H as (k & wk & Hk & Hc & Hb).
    exists (S k), wk. split; [lia|]. split; [|exact Hb].
    simpl. now rewrite E.
  - intros [= <- ->]. exists 0%nat, w. split; [lia|]. now split.
Qed.

(** More fuel does not change what a loop returns. *)
Lemma for_ever_more_fuel fuel fuel' body w w' r :
  for_ever fuel body w = (w', inl (Return r)) ->
  (fuel <= fuel')%nat ->
  for_ever fuel' body w = (w', inl (Return r)).
Proof.
  intros H Hle. apply for_ever_returns_inv in H as (k & wk & Hk & Hc & Hb).
  replace fuel' with (k + S (fuel' - S k))%nat by lia.
  rewrite (for_ever_continued _ _ _ _ _ Hc). now apply for_ever_leave.
Qed.

(** ** The clock *)

Lemma client_Do_clock {X} env client req w w1 r :
  client_Do (X:=X) env client req w = (w1, inr r) -> now w <= now w1.
Proof.
  unfold client_Do.
  destruct (round_trip env w (Timeout client) req) as [took reply].
  intros [= <- _]. cbn. lia.
Qed.

Lemma slept_clock env ci start w :
  now w + Z.max 0 ci <= now (slept env ci start w).
Proof. unfold slept. cbn. lia. Qed.

(** A pass that goes on takes at least the poll interval. *)
Lemma pass_continue_clock env client headers statusURL resultURL mode
    timeout ci start w w' :
  getJobResult_pass env client headers statusURL resultURL mode timeout ci
                    start w = (w', inl Continue) ->
  now w + Z.max 0 ci <= now w'.
Proof.
  intros H. apply pass_path_sound in H.
  inversion H as [| | |req w3 resp _ _ Hdo| |req w3 resp m _ _ Hdo|]; subst;
    apply client_Do_clock in Hdo;
    pose proof (slept_clock env ci start w); lia.
Qed.

(** A pass leaves the loop only by returning. *)
Lemma pass_leave_returns env client headers statusURL resultURL mode
    timeout ci start w w' x :
  getJobResult_pass env client headers statusURL resultURL mode timeout ci
                    start w = (w', inl (Leave x)) ->
  exists r, x = Return r.
Proof.
  intros H. apply pass_path_sound in H. inversion H; subst; eauto.
Qed.

(** ** The form and the upload request *)

Lemma createMultipartRequest_parts env file language body contentType :
  createMultipartRequest env file language = Ok (body, contentType) ->
  contentType = "multipart/form-data; boundary=" +:+ random_boundary env /\
  Boundary body = random_boundary env /\
  Closed body = true /\
  Parts body
  = {| FormName := "file"; FileName := Some "uploadfile"; Data := file |}
    :: match language with
       | Some l => [{| FormName := "language"; FileName := None;
                       Data := list_byte_of_string l |}]
       | None => []
       end.
Proof.
  destruct language as [l|]; intros [= <- <-]; repeat split; reflexivity.
Qed.

(** X1: [createMultipartRequest] never fails.  The form it builds is
    closed, uses the boundary drawn by the writer, which the content type
    names, and holds the file, byte for byte, as the part ["file"] with
    file name ["uploadfile"], followed by the part ["language"] with the
    given value exactly when a language is given, and nothing else. *)
Theorem createMultipartRequest_form env file language :
  exists body,
    createMultipartRequest env file language
    = Ok (body, "multipart/form-data; boundary=" +:+ Boundary body) /\
    Boundary body = random_boundary env /\
    Closed body = true /\
    Parts body
    = {| FormName := "file"; FileName := Some "uploadfile"; Data := file |}
      :: match language with
         | Some l => [{| FormName := "language"; FileName := None;
                         Data := list_byte_of_string l |}]
         | None => []
         end.
Proof.
  destruct (createMultipartRequest_ok env file language) as [body Hform].
  destruct (createMultipartRequest_parts _ _ _ _ _ Hform)
    as (_ & Hb & Hc & Hp).
  exists body. rewrite Hb. auto.
Qed.

Lemma client_Do_inv {X} env client req w w1 r :
  client_Do (X:=X) env client req w = (w1, inr r) ->
  exists took reply,
    round_trip env w (Timeout client) req = (took, reply) /\
    w1 = advance (Z.of_N took) (log (EvDo (Timeout client) req) w) /\
    r = match reply with
        | inl msg => Err (TransportError msg)
        | inr resp => Ok resp
        end.
Proof.
  unfold client_Do.
  destruct (round_trip env w (Timeout client) req) as [took reply].
  intros [= <- <-]. now exists took, reply.
Qed.

Lemma http_NewRequest_inv env method url body req :
  http_NewRequest env method url body = Ok req ->
  url_error env url = None /\
  req = {| Method := method; URL := url; Header := ∅; ReqBody := body |}.
Proof.
  unfold http_NewRequest. destruct (url_error env url); [discriminate|].
  now intros [= <-].
Qed.

(** What the events after the upload add to the requests of a run. *)
Lemma upload_path_requests env fuel mode apiKeyOptional
    timeoutSecondsOptional checkIntervalSecondsOptional w1 r w' x :
  upload_path env fuel mode apiKeyOptional timeoutSecondsOptional
              checkIntervalSecondsOptional w1 r w' x ->
  exists evs,
    trace w' = trace w1 ++ evs /\
    env_reads evs = [] /\
    Forall (authorized (credential env apiKeyOptional)) (requests evs).
Proof.
  destruct 1 as [| | | |resp response jobID w' x _ _ _ Hjob];
    try (exists []; rewrite app_nil_r; repeat split; constructor).
  apply getJobResult_events in Hjob as (evs & Ht & Hl).
  exists (EvNow (now w1) :: evs). split; [exact Ht|]. split.
  - apply (loop_events_env_reads _ _ _ _ _ _ _ Hl).
  - eapply Forall_impl; [apply (loop_events_requests _ _ _ _ _ _ _ Hl)|].
    intros req [->| ->]; unfold authorized; cbn; apply lookup_singleton_eq.
Qed.

(** X2: the first request of any run of [Parse] that sends one is the
    upload: a POST to [BASE_URL/api/parsing/upload] whose body is the form
    built from the file and the language, with exactly two headers, the
    content type of that form and the bearer credential. *)
Theorem Parse_first_request_is_the_upload env fuel file mode apiKeyOptional
    languageOptional timeoutSecondsOptional checkIntervalSecondsOptional
    w w' x first rest :
  Parse env fuel file mode apiKeyOptional languageOptional
        timeoutSecondsOptional checkIntervalSecondsOptional w = (w', inl x) ->
  requests (trace w') = requests (trace w) ++ first :: rest ->
  Method first = "POST" /\
  URL first = BASE_URL +:+ "/api/parsing/upload" /\
  Header first
  = {[ "Content-Type" :=
         ["multipart/form-data; boundary=" +:+ random_boundary env];
       "Authorization" := ["Bearer " +:+ credential env apiKeyOptional] ]} /\
  exists body,
    ReqBody first = Some body /\
    createMultipartRequest env file languageOptional
    = Ok (body, "multipart/form-data; boundary=" +:+ random_boundary env) /\
    Parts body
    = {| FormName := "file"; FileName := Some "uploadfile"; Data := file |}
      :: match languageOptional with
         | Some l => [{| FormName := "language"; FileName := None;
                         Data := list_byte_of_string l |}]
         | None => []
         end.
Proof.
  intros H Hreqs. apply parse_path_sound in H.
  destruct H as [Hfile|Hfile Hnone Hunset|body ct e Hfile Hkey Hform Hreq
                |body ct req w1 r w' x Hfile Hkey Hform Hreq Hdo Hup].
  - rewrite <- (app_nil_r (requests (trace w))) in Hreqs at 1.
    now apply app_inv_head in Hreqs.
  - rewrite trace_log, requests_app in Hreqs. cbn in Hreqs.
    now apply app_inv_head in Hreqs.
  - rewrite requests_after_credential in Hreqs.
    rewrite <- (app_nil_r (requests (trace w))) in Hreqs at 1.
    now apply app_inv_head in Hreqs.
  - apply upload_path_requests in Hup as (evs & Ht & _).
    apply client_Do_trace in Hdo.
    rewrite Ht, Hdo, !requests_app, requests_after_credential in Hreqs.
    rewrite <- app_assoc in Hreqs. apply app_inv_head in Hreqs.
    cbn in Hreqs. injection Hreqs as <- _.
    destruct (createMultipartRequest_parts _ _ _ _ _ Hform)
      as (-> & _ & _ & Hparts).
    apply http_NewRequest_inv in Hreq as [_ ->].
    repeat split. exists body. auto.
Qed.

Lemma Parse_first_request_is_the_upload_witness :
  let run :=
    Parse (Mock.env_of (Mock.succeeds_at 2)) 5 Mock.file1 TEXT (Some "sk")
          (Some "en") None None Mock.w0 in
  exists first rest body,
    requests (trace (fst run)) = first :: rest /\
    Method first = "POST" /\
    ReqBody first = Some body /\
    Parts body
    = [{| FormName := "file"; FileName := Some "uploadfile";
          Data := Mock.file1 |};
       {| FormName := "language"; FileName := None;
          Data := list_byte_of_string "en" |}].
Proof.
  intros run.
  set (reqs := requests (trace (fst run))).
  set (first := hd no_request reqs).
  destruct (Parse_first_request_is_the_upload
              (Mock.env_of (Mock.succeeds_at 2)) 5 Mock.file1 TEXT (Some "sk")
              (Some "en") None None Mock.w0 (fst run)
              (Return (Err ErrParsingFailed)) first (tl reqs))
    as (Hm & _ & _ & body & Hb & _ & Hp).
  - vm_compute. reflexivity.
  - vm_compute. reflexivity.
  - exists first, (tl reqs), body. repeat split; assumption.
Defined.

(** ** Where the results of [Parse] come from *)

Lemma client_Do_error {X} env client req w w1 e :
  client_Do (X:=X) env client req w = (w1, inr (Err e)) ->
  exists took msg,
    e = TransportError msg /\
    round_trip env w (Timeout client) req = (took, inl msg) /\
    w1 = advance (Z.of_N took) (log (EvDo (Timeout client) req) w).
Proof.
  intros H. apply client_Do_inv in H as (took & [msg|resp] & Hrt & -> & Hr);
    [|discriminate]. injection Hr as ->. now exists took, msg.
Qed.

Lemma client_Do_response {X} env client req w w1 resp :
  client_Do (X:=X) env client req w = (w1, inr (Ok resp)) ->
  exists took,
    round_trip env w (Timeout client) req = (took, inr resp) /\
    w1 = advance (Z.of_N took) (log (EvDo (Timeout client) req) w).
Proof.
  intros H. apply client_Do_inv in H as (took & [msg|resp'] & Hrt & -> & Hr);
    [discriminate|]. injection Hr as ->. now exists took.
Qed.

Lemma json_Decode_inv env body e :
  json_Decode env body = Err e ->
  exists msg, e = DecodeError msg /\ json_decode env body = inl msg.
Proof.
  unfold json_Decode. destruct (json_decode env body) as [msg|m];
    [|discriminate]. intros [= <-]. now exists msg.
Qed.

Lemma json_Decode_ok env body m :
  json_Decode env body = Ok m -> json_decode env body = inr m.
Proof.
  unfold json_Decode. destruct (json_decode env body); [discriminate|].
  now intros [= ->].
Qed.

Lemma http_NewRequest_error_inv env method url body e :
  http_NewRequest env method url body = Err e ->
  exists msg, e = RequestError msg /\ url_error env url = Some msg.
Proof.
  unfold http_NewRequest. destruct (url_error env url) as [msg|];
    [|discriminate]. intros [= <-]. now exists msg.
Qed.

(** The results of the poll loop are not the sentinels of the checks that
    [Parse] makes before the upload. *)
Lemma getJobResult_result env fuel apiKey baseUrl jobID mode timeout ci
    w w' r :
  getJobResult env fuel apiKey baseUrl jobID mode timeout ci w
  = (w', inl (Return r)) ->
  r <> Err ErrEmptyFile /\ r <> Err ErrNoAPIKey.
Proof.
  intros H. apply getJobResult_events in H as (evs & _ & Hl).
  apply loop_events_result in Hl as [->|Hp]; [split; discriminate|].
  split; intros ->; contradiction.
Qed.

(** X6: [Parse] returns [ErrEmptyFile] exactly when the file is empty, and
    [ErrNoAPIKey] exactly when the file is not empty, no credential is
    passed and the environment variable is unset or empty: no later stage
    of a run, and no answer of the server, produces either of them. *)
Theorem Parse_sentinels_exact env fuel file mode apiKeyOptional
    languageOptional timeoutSecondsOptional checkIntervalSecondsOptional
    w w' x :
  Parse env fuel file mode apiKeyOptional languageOptional
        timeoutSecondsOptional checkIntervalSecondsOptional w = (w', inl x) ->
  (x = Return (Err ErrEmptyFile) <-> file = []) /\
  (x = Return (Err ErrNoAPIKey) <->
   file <> [] /\ apiKeyOptional = None /\ getenv env API_KEY_VARIABLE = "").
Proof.
  intros H. apply parse_path_sound in H.
  destruct H as [Hfile|Hfile Hnone Hunset|body ct e Hfile Hkey Hform Hreq
                |body ct req w1 r w' x Hfile Hkey Hform Hreq Hdo Hup].
  - split; split; try done. intros (Hne & _). contradiction.
  - split; split; try done.
  - apply http_NewRequest_error_inv in Hreq as (msg & -> & _).
    split; split; try done. intros (_ & Hnone & Hunset).
    now destruct (Hkey Hnone).
  - assert (Hx : x <> Return (Err ErrEmptyFile)
                 /\ x <> Return (Err ErrNoAPIKey)).
    { destruct Hup as [e|resp Hc|resp e Hc Hd|resp m Hc Hd Hno
                      |resp m jobID w' x Hc Hd Hid Hjob].
      - apply client_Do_error in Hdo as (took & msg & -> & _).
        split; discriminate.
      - split; discriminate.
      - apply json_Decode_inv in Hd as (msg & -> & _). split; discriminate.
      - split; discriminate.
      - destruct x as [r|]; [|split; discriminate].
        apply getJobResult_result in Hjob as [H1 H2].
        split; congruence. }
    destruct Hx as [H1 H2].
    split; split; try done. intros (_ & Hnone & Hunset).
    now destruct (Hkey Hnone).
Qed.

Lemma Parse_sentinels_exact_witness :
  let run :=
    Parse (Mock.env_of (Mock.upload_answers 404 "")) 5 Mock.file1 JSON
          (Some "sk") None None None Mock.w0 in
  snd run = inl (Return (Err ErrParsingFailed)) /\
  (snd run = inl (Return (Err ErrEmptyFile)) <-> Mock.file1 = []).
Proof.
  intros run. split; [vm_compute; reflexivity|].
  destruct (Parse_sentinels_exact
              (Mock.env_of (Mock.upload_answers 404 "")) 5 Mock.file1 JSON
              (Some "sk") None None None Mock.w0 (fst run)
              (Return (Err ErrParsingFailed))) as [Hempty _].
  - vm_compute. reflexivity.
  - split.
    + intros E. vm_compute in E. discriminate E.
    + discriminate.
Defined.

(** X3: when no credential is passed and the environment variable holds a
    value that is not empty, a run on a file that is not empty reads the
    variable once and only that variable, and every request it sends, to
    any of the three endpoints, carries that value as its bearer
    credential. *)
Theorem Parse_credential_of_the_environment env fuel file mode
    languageOptional timeoutSecondsOptional checkIntervalSecondsOptional
    w w' x :
  file <> [] ->
  getenv env API_KEY_VARIABLE <> "" ->
  Parse env fuel file mode None languageOptional
        timeoutSecondsOptional checkIntervalSecondsOptional w = (w', inl x) ->
  exists evs,
    trace w' = trace w ++ evs /\
    env_reads evs = [API_KEY_VARIABLE] /\
    Forall (fun req =>
              Header req !! "Authorization"
              = Some ["Bearer " +:+ getenv env API_KEY_VARIABLE])
           (requests evs).
Proof.
  intros Hfile Hset H. apply parse_path_sound in H.
  destruct H as [Hempty|_ _ Hunset|body ct e _ Hkey Hform Hreq
                |body ct req w1 r w' x _ Hkey Hform Hreq Hdo Hup];
    try contradiction.
  - exists [EvGetenv API_KEY_VARIABLE]. repeat split. constructor.
  - apply upload_path_requests in Hup as (evs & Ht & Hreads & Hauth).
    apply client_Do_trace in Hdo. cbn [after_credential trace log] in Hdo.
    eexists. split; [rewrite Ht, Hdo, <- !app_assoc; reflexivity|].
    split.
    + unfold env_reads in *. rewrite !omap_app, Hreads. reflexivity.
    + rewrite !requests_app. cbn [requests omap list_omap app].
      constructor; [apply authorized_upload | exact Hauth].
Qed.

Lemma Parse_credential_of_the_environment_witness :
  let env := Mock.mk_env "key-of-the-environment" (Mock.succeeds_at 2)
                         100000000 in
  let run := Parse env 5 Mock.file1 MARKDOWN None None None None Mock.w0 in
  snd run = inl (Return (Ok "hello")) /\
  env_reads (trace (fst run)) = [API_KEY_VARIABLE] /\
  Forall (fun req =>
            Header req !! "Authorization"
            = Some ["Bearer key-of-the-environment"])
         (requests (trace (fst run))) /\
  length (requests (trace (fst run))) = 4%nat.
Proof.
  intros env run.
  destruct (Parse_credential_of_the_environment env 5 Mock.file1 MARKDOWN
              None None None Mock.w0 (fst run) (Return (Ok "hello")))
    as (evs & Ht & Hreads & Hauth).
  - discriminate.
  - vm_compute. discriminate.
  - vm_compute. reflexivity.
  - cbn [trace Mock.w0 app] in Ht. rewrite Ht.
    split; [vm_compute; reflexivity|]. split; [exact Hreads|].
    split; [exact Hauth|]. rewrite <- Ht. vm_compute. reflexivity.
Defined.

Lemma fetch_path_explained env client apiKey baseUrl jobID mode w3 w' e :
  baseUrl = BASE_URL ->
  fetch_path env client {[ "Authorization" := "Bearer " +:+ apiKey ]}
    (baseUrl +:+ "/api/parsing/job/" +:+ jobID +:+ "/result/" +:+ mode)
    mode w3 w' (Err e) ->
  explained env apiKey mode w' e.
Proof.
  intros ->.
  inversion 1 as [e' Hreq|req w4 e' Hreq Hdo|req w4 resp Hreq Hdo Hc
                 |req w4 resp e' Hreq Hdo Hc Hd
                 |req w4 resp m Hreq Hdo Hc Hd Hno|]; subst.
  - apply http_NewRequest_error_inv in Hreq as (msg & -> & Hurl).
    cbn. eauto.
  - apply client_Do_error in Hdo as (took & msg & -> & Hrt & ->).
    cbn. eauto 10.
  - apply http_NewRequest_inv in Hreq as [_ ->].
    rewrite result_request_eq in Hdo.
    apply client_Do_response in Hdo as (took & Hrt & ->).
    cbn. eexists w3, (Timeout client), _, took, resp, mode.
    split; [exact Hrt|]. split; [reflexivity|]. split; [|now left].
    right. split; [now exists jobID | reflexivity].
  - apply json_Decode_inv in Hd as (msg & -> & Hd).
    apply client_Do_response in Hdo as (took & Hrt & ->).
    cbn. eauto 10.
  - apply http_NewRequest_inv in Hreq as [_ ->].
    rewrite result_request_eq in Hdo.
    apply client_Do_response in Hdo as (took & Hrt & ->).
    apply json_Decode_ok in Hd.
    cbn. eexists w3, (Timeout client), _, took, resp, mode.
    split; [exact Hrt|]. split; [reflexivity|]. split; [|right; eauto].
    right. split; [now exists jobID | reflexivity].
Qed.

Lemma pass_path_explained env client apiKey baseUrl jobID mode timeout ci
    start w w' e :
  baseUrl = BASE_URL ->
  pass_path env client {[ "Authorization" := "Bearer " +:+ apiKey ]}
    (baseUrl +:+ "/api/parsing/job/" +:+ jobID)
    (baseUrl +:+ "/api/parsing/job/" +:+ jobID +:+ "/result/" +:+ mode)
    mode timeout ci start w w' (Leave (Return (Err e))) ->
  explained env apiKey mode w' e.
Proof.
  intros Hbase.
  inversion 1 as [Hlt|e' Hle Hreq|req w3 e' Hle Hreq Hdo| |
                  req w3 resp e' Hle Hreq Hdo Hc Hd| |
                  req w3 resp m w4 r Hle Hreq Hdo Hc Hd Hs Hfetch]; subst.
  - exact I.
  - apply http_NewRequest_error_inv in Hreq as (msg & -> & Hurl).
    cbn. eauto.
  - apply client_Do_error in Hdo as (took & msg & -> & Hrt & ->).
    cbn. eauto 10.
  - apply json_Decode_inv in Hd as (msg & -> & Hd).
    apply client_Do_response in Hdo as (took & Hrt & ->).
    cbn. eauto 10.
  - now apply (fetch_path_explained _ _ _ _ _ _ _ _ _ eq_refl Hfetch).
Qed.

(** X4: an error that [Parse] returns is the answer of the call made last,
    and the run ends in the world that call left: a transport error is the
    one the last round trip reported, a decoding error the one the decoder
    reported on the body of the last response (which had status 200), a
    request error the one [http.NewRequest] reported; the form never
    fails.  [ErrParsingFailed] stands for the last response having a status
    other than 200 or a decoded body without the string field expected,
    and that response answers the upload or the result request, never a
    status request. *)
Theorem Parse_errors_explained env fuel file mode apiKeyOptional
    languageOptional timeoutSecondsOptional checkIntervalSecondsOptional
    w w' e :
  Parse env fuel file mode apiKeyOptional languageOptional
        timeoutSecondsOptional checkIntervalSecondsOptional w
  = (w', inl (Return (Err e))) ->
  explained env (credential env apiKeyOptional) mode w' e.
Proof.
  intros H. apply parse_path_sound in H.
  inversion H as [Hfile|Hfile Hnone Hunset|body ct e' Hfile Hkey Hform Hreq
                 |body ct req w1 r w'' x Hfile Hkey Hform Hreq Hdo Hup];
    subst; try exact I.
  - apply http_NewRequest_error_inv in Hreq as (msg & -> & Hurl).
    cbn. eauto.
  - apply http_NewRequest_inv in Hreq as [_ ->].
    inversion Hup as [e'|resp Hc|resp e' Hc Hd|resp m Hc Hd Hno
                     |resp m jobID w3 x Hc Hd Hid Hjob]; subst.
    + apply client_Do_error in Hdo as (took & msg & -> & Hrt & ->).
      cbn. eauto 10.
    + apply client_Do_response in Hdo as (took & Hrt & ->).
      cbn. eexists _, _, _, took, resp, "id".
      split; [exact Hrt|]. split; [reflexivity|]. split; [|now left].
      left. now split.
    + apply json_Decode_inv in Hd as (msg & -> & Hd).
      apply client_Do_response in Hdo as (took & Hrt & ->).
      cbn. eauto 10.
    + apply client_Do_response in Hdo as (took & Hrt & ->).
      apply json_Decode_ok in Hd.
      cbn. eexists _, _, _, took, resp, "id".
      split; [exact Hrt|]. split; [reflexivity|]. split; [|right; eauto].
      left. now split.
    + rewrite getJobResult_unfold in Hjob.
      apply for_ever_returns_inv in Hjob as (k & wk & _ & _ & Hpass).
      apply pass_path_sound in Hpass.
      now apply (pass_path_explained _ _ _ _ _ _ _ _ _ _ _ _ eq_refl Hpass).
Qed.

Lemma Parse_errors_explained_witness :
  let env := Mock.env_of (Mock.status_answers 200 Mock.truncated) in
  let run :=
    Parse env 5 Mock.file1 MARKDOWN (Some "sk") None None None Mock.w0 in
  snd run = inl (Return (Err (DecodeError "unexpected EOF"))) /\
  exists w3 t req took resp,
    round_trip env w3 t req = (took, inr resp) /\
    fst run = advance (Z.of_N took) (log (EvDo t req) w3) /\
    StatusCode resp = StatusOK /\
    json_decode env (Body resp) = inl "unexpected EOF".
Proof.
  intros env run. split; [vm_compute; reflexivity|].
  apply (Parse_errors_explained env 5 Mock.file1 MARKDOWN (Some "sk") None
           None None Mock.w0 (fst run) (DecodeError "unexpected EOF")).
  vm_compute. reflexivity.
Defined.

Lemma slept_trace env ci start w :
  trace (slept env ci start w)
  = trace w ++ [EvSince (saturate64 (now w - start)); EvSleep ci].
Proof. unfold slept. cbn. now rewrite <- app_assoc. Qed.

(** X5: when [Parse] returns a string, the run has sent the upload, at
    least one status request and, last, one result request, in this order
    and nothing else.  The upload, sent once the credential is resolved,
    was answered with status 200 and a body holding the job identifier
    under ["id"], in world [w1]; the loop started there once the clock was
    read, and [k] passes ended in [continue], in world [wk]; in the next
    pass the time was not used up and the status request, the last of the
    run, sent after the sleep, was answered with status 200 and
    ["SUCCESS"] under ["status"], in world [w3]; and the result request,
    sent there, was answered with status 200 and a body that holds the
    returned string under the name of the mode, in the world the run ends
    in. *)
Theorem Parse_success_explained env fuel file mode apiKeyOptional
    languageOptional timeoutSecondsOptional checkIntervalSecondsOptional
    w w' s :
  let apiKey := credential env apiKeyOptional in
  let timeout :=
    seconds (or_default DEFAULT_MAX_TIMEOUT_SECONDS timeoutSecondsOptional) in
  let interval :=
    seconds (or_default DEFAULT_CHECK_INTERVAL_SECONDS
                        checkIntervalSecondsOptional) in
  Parse env fuel file mode apiKeyOptional languageOptional
        timeoutSecondsOptional checkIntervalSecondsOptional w
  = (w', inl (Return (Ok s))) ->
  exists upload jobID k w1 wk w3,
    let status := status_request apiKey BASE_URL jobID in
    let result := result_request apiKey BASE_URL jobID mode in
    let pass :=
      getJobResult_pass env {| Timeout := timeout |}
        {[ "Authorization" := "Bearer " +:+ apiKey ]}
        (BASE_URL +:+ "/api/parsing/job/" +:+ jobID)
        (BASE_URL +:+ "/api/parsing/job/" +:+ jobID +:+ "/result/" +:+ mode)
        mode timeout interval (now w1) in
    let w2 := slept env interval (now w1) wk in
    (k < fuel)%nat /\
    requests (trace w')
    = requests (trace w) ++ upload :: replicate (S k) status ++ [result] /\
    (exists took uresp response,
       round_trip env (after_credential apiKeyOptional w) timeout upload
       = (took, inr uresp) /\
       w1 = advance (Z.of_N took)
              (log (EvDo timeout upload) (after_credential apiKeyOptional w)) /\
       StatusCode uresp = StatusOK /\
       json_decode env (Body uresp) = inr response /\
       response !! "id" = Some (JString jobID)) /\
    continued k pass
      (advance (Z.pos (clock_step env w1)) (log (EvNow (now w1)) w1))
    = Some wk /\
    saturate64 (now wk - now w1) <= timeout /\
    (exists took sresp statusResponse,
       round_trip env w2 timeout status = (took, inr sresp) /\
       w3 = advance (Z.of_N took) (log (EvDo timeout status) w2) /\
       StatusCode sresp = StatusOK /\
       json_decode env (Body sresp) = inr statusResponse /\
       statusResponse !! "status" = Some (JString "SUCCESS")) /\
    (exists took resp resultResponse,
       round_trip env w3 timeout result = (took, inr resp) /\
       w' = advance (Z.of_N took) (log (EvDo timeout result) w3) /\
       StatusCode resp = StatusOK /\
       json_decode env (Body resp) = inr resultResponse /\
       resultResponse !! mode = Some (JString s)).
Proof.
  intros apiKey timeout interval H. apply parse_path_sound in H.
  inversion H as [| | |body ct req w1 r w'' x Hfile Hkey Hform Hreq Hdo Hup];
    subst.
  inversion Hup as [| | | |uresp response jobID w3 x Hc Hd Hid Hjob]; subst.
  rewrite getJobResult_unfold in Hjob.
  apply for_ever_returns_inv in Hjob as (k & wk & Hk & Hcont & Hpass).
  apply pass_path_sound in Hpass.
  inversion Hpass as [| | | | | |sreq w3 sresp sm w4 r Hle Hsreq Hsdo Hsc Hsd
                                  Hss Hfetch]; subst.
  inversion Hfetch as [| | | | |rreq w4 resp m s' Hrreq Hrdo Hrc Hrd Hrs];
    subst.
  apply http_NewRequest_inv in Hsreq as [_ ->].
  apply http_NewRequest_inv in Hrreq as [_ ->].
  rewrite status_request_eq in Hsdo. rewrite result_request_eq in Hrdo.
  exists (upload_request apiKey ct req), jobID, k, w1, wk, w3.
  cbv zeta.
  split; [exact Hk|]. split; [|split; [|split; [|split; [|split]]]].
  - rewrite (client_Do_trace _ _ _ _ _ _ Hrdo), requests_app.
    rewrite (client_Do_trace _ _ _ _ _ _ Hsdo), requests_app.
    rewrite slept_trace, requests_app.
    rewrite (continued_requests _ _ _ _ _ _ _ _ _ _ _ _ Hcont).
    rewrite trace_advance, trace_log, requests_app.
    rewrite (client_Do_trace _ _ _ _ _ _ Hdo), requests_app.
    rewrite requests_after_credential, status_request_eq.
    cbn [requests omap list_omap app Timeout]. rewrite !app_nil_r.
    rewrite <- !app_assoc. cbn [app].
    change (?x :: replicate k ?y ++ ?z) with (x :: (replicate k y ++ z)).
    f_equal. f_equal.
    rewrite (replicate_S_end k), <- app_assoc. reflexivity.
  - apply client_Do_response in Hdo as (took & Hrt & Hw1).
    apply json_Decode_ok in Hd. now exists took, uresp, response.
  - exact Hcont.
  - exact Hle.
  - apply client_Do_response in Hsdo as (took & Hrt & Hw3).
    apply json_Decode_ok in Hsd. now exists took, sresp, sm.
  - apply client_Do_response in Hrdo as (took & Hrt & Hw').
    apply json_Decode_ok in Hrd. now exists took, resp, m.
Qed.

Lemma Parse_success_explained_witness :
  let env := Mock.env_of (Mock.succeeds_at 3) in
  let run :=
    Parse env 5 Mock.file1 MARKDOWN (Some "sk") None None None Mock.w0 in
  snd run = inl (Return (Ok "hello")) /\
  exists upload,
    requests (trace (fst run))
    = upload :: replicate 3 (status_request "sk" BASE_URL Mock.job)
      ++ [result_request "sk" BASE_URL Mock.job MARKDOWN].
Proof.
  intros env run. split; [vm_compute; reflexivity|].
  destruct (Parse_success_explained env 5 Mock.file1 MARKDOWN (Some "sk")
              None None None Mock.w0 (fst run) "hello")
    as (upload & jobID & k & w1 & wk & w3 & Hk & Hreqs & _).
  - vm_compute. reflexivity.
  - exists (hd no_request (requests (trace (fst run)))).
    vm_compute. reflexivity.
Defined.

(** ** The poll loop ends *)

Lemma saturate64_above timeout z :
  timeout < 2 ^ 63 - 1 -> timeout < z -> timeout < saturate64 z.
Proof. unfold saturate64. lia. Qed.

(** A pass sends one request when it goes on and at most two when it
    leaves. *)
Lemma pass_requests env client headers statusURL resultURL mode timeout ci
    start w w' x :
  getJobResult_pass env client headers statusURL resultURL mode timeout ci
                    start w = (w', inl x) ->
  (length (requests (trace w'))
   <= length (requests (trace w)) + if x is Continue then 1 else 2)%nat.
Proof.
  intros H. apply pass_events_sound in H as (evs & -> & He).
  rewrite requests_app, length_app.
  inversion He; subst; cbn; lia.
Qed.

Lemma for_ever_terminates env client headers statusURL resultURL mode
    timeout ci start :
  0 < ci -> timeout < 2 ^ 63 - 1 ->
  forall n w,
    timeout - (now w - start) < Z.of_nat n * ci ->
    exists w' r,
      for_ever (S n)
        (getJobResult_pass env client headers statusURL resultURL mode
                           timeout ci start) w
      = (w', inl (Return r)) /\
      (length (requests (trace w')) <= length (requests (trace w)) + n + 1)%nat.
Proof.
  intros Hci Hmax. induction n as [|n IH]; intros w Hn.
  - assert (Hlt : timeout < saturate64 (now w - start))
      by (apply saturate64_above; lia).
    eexists _, _. split.
    + apply for_ever_leave. now apply pass_timed_out.
    + rewrite trace_log, requests_app, length_app. cbn. lia.
  - destruct (getJobResult_pass env client headers statusURL resultURL mode
                timeout ci start w) as [w1 [[|y]|v]] eqn:E; [| |destruct v].
    + pose proof (pass_continue_clock _ _ _ _ _ _ _ _ _ _ _ E) as Hclock.
      pose proof (pass_requests _ _ _ _ _ _ _ _ _ _ _ _ E) as Hreqs.
      destruct (IH w1) as (w' & r & Hrun & Hlen); [lia|].
      exists w', r. split; [|cbn in Hreqs; lia].
      rewrite (for_ever_continue _ _ _ _ E). exact Hrun.
    + destruct (pass_leave_returns _ _ _ _ _ _ _ _ _ _ _ _ E) as [r ->].
      pose proof (pass_requests _ _ _ _ _ _ _ _ _ _ _ _ E) as Hreqs.
      exists w1, r. split; [now apply for_ever_leave | cbn in Hreqs; lia].
Qed.

(** The loop of [getJobResult] is left within [n] passes once [n]
    intervals exceed the timeout. *)
Lemma getJobResult_bounded env apiKey baseUrl jobID mode timeout
    checkInterval w n :
  0 < checkInterval ->
  timeout < 2 ^ 63 - 1 ->
  timeout < Z.of_nat n * checkInterval ->
  exists w' r,
    (forall fuel,
       (n < fuel)%nat ->
       getJobResult env fuel apiKey baseUrl jobID mode timeout checkInterval w
       = (w', inl (Return r))) /\
    (length (requests (trace w')) <= length (requests (trace w)) + n + 1)%nat.
Proof.
  intros Hci Hmax Hn.
  destruct (for_ever_terminates env {| Timeout := timeout |}
              {[ "Authorization" := "Bearer " +:+ apiKey ]}
              (baseUrl +:+ "/api/parsing/job/" +:+ jobID)
              (baseUrl +:+ "/api/parsing/job/" +:+ jobID
               +:+ "/result/" +:+ mode)
              mode timeout checkInterval (now w) Hci Hmax n
              (advance (Z.pos (clock_step env w)) (log (EvNow (now w)) w)))
    as (w' & r & Hrun & Hlen).
  { cbn [now log advance]. lia. }
  exists w', r. split.
  - intros fuel Hfuel. rewrite getJobResult_unfold.
    apply (for_ever_more_fuel (S n)); [exact Hrun | lia].
  - rewrite trace_advance, trace_log, requests_app, length_app in Hlen.
    cbn in Hlen. lia.
Qed.

(** X7: with a poll interval that is positive, [getJobResult] returns: the
    loop makes at most [n] polls once [n] intervals exceed the timeout.
    What it returns and the world it ends in do not depend on the fuel
    given beyond that, and the run has sent at most [n] status requests
    and one result request. *)
Theorem getJobResult_returns env apiKey baseUrl jobID mode timeout
    checkInterval w n :
  0 < checkInterval ->
  timeout < 2 ^ 63 - 1 ->
  timeout < Z.of_nat n * checkInterval ->
  exists w' r,
    (forall fuel,
       (n < fuel)%nat ->
       getJobResult env fuel apiKey baseUrl jobID mode timeout checkInterval w
       = (w', inl (Return r))) /\
    (length (requests (trace w')) <= length (requests (trace w)) + n + 1)%nat.
Proof.
  intros Hci Hmax Hn.
  exact (getJobResult_bounded env apiKey baseUrl jobID mode timeout
           checkInterval w n Hci Hmax Hn).
Qed.

Lemma getJobResult_returns_witness :
  exists w',
    getJobResult (Mock.env_of Mock.always_pending) 4 "sk" BASE_URL
                 Mock.job MARKDOWN (seconds 2) (seconds 1) Mock.w0
    = (w', inl (Return (Err ErrTimeoutReached))) /\
    (length (requests (trace w')) <= 4)%nat.
Proof.
  destruct (getJobResult_returns (Mock.env_of Mock.always_pending) "sk"
              BASE_URL Mock.job MARKDOWN (seconds 2) (seconds 1) Mock.w0 3)
    as (w' & r & Hrun & Hlen).
  - vm_compute. reflexivity.
  - vm_compute. reflexivity.
  - vm_compute. reflexivity.
  - exists w'. split; [|cbn in Hlen; lia].
    pose proof (Hrun 4%nat ltac:(lia)) as H4.
    assert (Hr : r = Err ErrTimeoutReached).
    { vm_compute in H4. now injection H4 as _ <-. }
    rewrite <- Hr. exact (Hrun 4%nat ltac:(lia)).
Defined.

(** The nanoseconds of a number of seconds are even, so never the largest
    [int64]. *)
Lemma seconds_below_max v : seconds v < 2 ^ 63 - 1.
Proof.
  unfold seconds, wrap64 at 1, Second.
  set (y := wrap64 v).
  pose proof (Z.div_mod (y * 1000000000 + 2 ^ 63) (2 ^ 64) ltac:(lia)) as Hdm.
  pose proof (Z.mod_pos_bound (y * 1000000000 + 2 ^ 63) (2 ^ 64) ltac:(lia))
    as Hb.
  set (q := (y * 1000000000 + 2 ^ 63) / 2 ^ 64) in *.
  set (m := (y * 1000000000 + 2 ^ 63) mod 2 ^ 64) in *.
  change (2 ^ 63) with 9223372036854775808 in *.
  change (2 ^ 64) with 18446744073709551616 in *.
  lia.
Qed.

(** Every stage of [Parse] before the loop returns at once, and the loop
    is bounded. *)
Lemma Parse_bounded env file mode apiKeyOptional languageOptional
    timeoutSecondsOptional checkIntervalSecondsOptional w n :
  let timeout :=
    seconds (or_default DEFAULT_MAX_TIMEOUT_SECONDS timeoutSecondsOptional) in
  let interval :=
    seconds (or_default DEFAULT_CHECK_INTERVAL_SECONDS
                        checkIntervalSecondsOptional) in
  0 < interval ->
  timeout < Z.of_nat n * interval ->
  exists w' r,
    (forall fuel,
       (n < fuel)%nat ->
       outcome (Parse env fuel file mode apiKeyOptional languageOptional
                      timeoutSecondsOptional checkIntervalSecondsOptional) w
       = (w', Some r)) /\
    (length (requests (trace w')) <= length (requests (trace w)) + n + 2)%nat.
Proof.
  intros timeout interval Hci Hn.
  destruct (ends_in_exit
              (Parse env (S n) file mode apiKeyOptional languageOptional
                     timeoutSecondsOptional checkIntervalSecondsOptional) w)
    as [x Hx].
  apply parse_path_sound in Hx.
  inversion Hx as [Hfile|Hfile Hnone Hunset|body ct e Hfile Hkey Hform Hreq
                  |body ct req w1 r w'' x' Hfile Hkey Hform Hreq Hdo Hup];
    subst.
  - eexists _, _. split;
      [intros fuel _; apply outcome_return; now apply Parse_empty_file | lia].
  - eexists _, _. split.
    + intros fuel _. apply outcome_return. now apply Parse_no_key.
    + rewrite trace_log, requests_app, length_app. cbn. lia.
  - eexists _, _. split.
    + intros fuel _. apply outcome_return.
      eapply Parse_no_upload_request; eauto.
    + rewrite requests_after_credential. lia.
  - unfold upload_request in Hdo.
    assert (Hreqs : length (requests (trace w1))
                    = (length (requests (trace w)) + 1)%nat).
    { rewrite (client_Do_trace _ _ _ _ _ _ Hdo), requests_app, length_app.
      rewrite requests_after_credential. reflexivity. }
    inversion Hup as [e|resp Hc|resp e Hc Hd|resp m Hc Hd Hno
                     |resp m jobID w3 x'' Hc Hd Hid Hjob]; subst.
    + eexists _, _. split;
        [intros fuel _; apply outcome_return; eapply Parse_upload_transport_error; eauto | lia].
    + eexists _, _. split;
        [intros fuel _; apply outcome_return; eapply Parse_upload_not_ok; eauto | lia].
    + eexists _, _. split;
        [intros fuel _; apply outcome_return; eapply Parse_upload_undecodable; eauto | lia].
    + eexists _, _. split;
        [intros fuel _; apply outcome_return; eapply Parse_upload_no_id; eauto | lia].
    + destruct (getJobResult_bounded env (credential env apiKeyOptional)
                  BASE_URL jobID mode timeout interval w1 n Hci
                  (seconds_below_max _) Hn) as (w' & r & Hrun & Hlen).
      exists w', r. split; [|lia].
      intros fuel Hfuel. apply outcome_return.
      rewrite (Parse_upload_job env fuel file mode apiKeyOptional
                 languageOptional timeoutSecondsOptional
                 checkIntervalSecondsOptional w w1 body ct req (Ok resp)
                 Hfile Hkey Hform Hreq Hdo resp m jobID
                 eq_refl Hc Hd Hid).
      now apply Hrun.
Qed.



(** ** A timeout that leaves no time *)

(** The first reading of the elapsed time is positive, so a timeout that
    is not ends the loop at its first check. *)
Lemma getJobResult_no_time env fuel apiKey baseUrl jobID mode timeout ci w :
  timeout <= 0 ->
  getJobResult env (S fuel) apiKey baseUrl jobID mode timeout ci w
  = (log (EvSince (saturate64 (Z.pos (clock_step env w))))
         (advance (Z.pos (clock_step env w)) (log (EvNow (now w)) w)),
     inl (Return (Err ErrTimeoutReached))).
Proof.
  intros Hneg. rewrite getJobResult_unfold.
  set (v := advance _ _).
  assert (Hv : now v - now w = Z.pos (clock_step env w))
    by (unfold v; cbn [now advance log]; lia).
  erewrite for_ever_leave; [reflexivity|].
  rewrite pass_timed_out; rewrite Hv; [reflexivity|].
  unfold saturate64. lia.
Qed.

(** With such a timeout no pass of the loop ends in [continue], and the
    time is used up when the loop starts. *)
Lemma no_pass_without_time env client headers statusURL resultURL mode
    timeout ci w k wk :
  timeout <= 0 ->
  continued k
    (getJobResult_pass env client headers statusURL resultURL mode timeout ci
                       (now w))
    (advance (Z.pos (clock_step env w)) (log (EvNow (now w)) w))
  = Some wk ->
  k = 0%nat /\ timeout < saturate64 (now wk - now w).
Proof.
  intros Hno. set (v := advance _ _).
  assert (Hv : timeout < saturate64 (now v - now w)).
  { unfold v, saturate64. cbn [now advance log]. lia. }
  destruct k as [|k]; simpl.
  - intros [= <-]. now split.
  - now rewrite pass_timed_out.
Qed.

(** X9: when the total timeout is below zero, as it is for a negative
    number of seconds and for a number so large that its nanoseconds wrap
    around, [Parse] never polls: it never sleeps, it sends at most the
    upload, it never returns a string, and once the upload has given it a
    job identifier (so that the clock is read) the first reading of the
    elapsed time, which exceeds the timeout, is the last event of the run,
    and the run returns [ErrTimeoutReached]. *)
Theorem Parse_negative_timeout env fuel file mode apiKeyOptional
    languageOptional timeoutSecondsOptional checkIntervalSecondsOptional
    w w' x :
  let timeout :=
    seconds (or_default DEFAULT_MAX_TIMEOUT_SECONDS timeoutSecondsOptional) in
  timeout < 0 ->
  Parse env (S fuel) file mode apiKeyOptional languageOptional
        timeoutSecondsOptional checkIntervalSecondsOptional w = (w', inl x) ->
  (exists e, x = Return (Err e)) /\
  exists evs,
    trace w' = trace w ++ evs /\
    sleeps evs = [] /\
    (length (requests evs) <= 1)%nat /\
    (forall pre t post,
       evs = pre ++ EvNow t :: post ->
       (exists e, post = [EvSince e] /\ timeout < e) /\
       x = Return (Err ErrTimeoutReached)).
Proof.
  intros t0 Hneg H. apply parse_path_sound in H.
  assert (Hquiet : forall evs : list Event,
            sleeps evs = [] ->
            (length (requests evs) <= 1)%nat ->
            (forall pre t post, evs <> pre ++ EvNow t :: post) ->
            forall w0' e,
              trace w0' = trace w ++ evs ->
              (exists e', Return (Err e) = Return (Err e')) /\
              exists evs',
                trace w0' = trace w ++ evs' /\
                sleeps evs' = [] /\
                (length (requests evs') <= 1)%nat /\
                (forall pre t post,
                   evs' = pre ++ EvNow t :: post ->
                   (exists e', post = [EvSince e'] /\ t0 < e')
                   /\ Return (Err e) = Return (Err ErrTimeoutReached))).
  { intros evs Hs Hr Hnow w0' e Ht. split; [eauto|]. exists evs.
    split; [exact Ht|]. split; [exact Hs|]. split; [exact Hr|].
    intros pre t post E. now destruct (Hnow pre t post). }
  inversion H as [Hfile|Hfile Hnone Hunset|body ct e Hfile Hkey Hform Hreq
                 |body ct req w1 r w'' x' Hfile Hkey Hform Hreq Hdo Hup];
    subst.
  - apply (Hquiet []); [reflexivity | cbn; lia | | now rewrite app_nil_r].
    intros pre t post E. now destruct pre.
  - apply (Hquiet [EvGetenv API_KEY_VARIABLE]);
      [reflexivity | cbn; lia | | reflexivity].
    intros pre t post E. destruct pre as [|a [|b pre']]; simplify_eq/=.
  - apply (Hquiet (credential_events apiKeyOptional));
      [now destruct apiKeyOptional
      | destruct apiKeyOptional; cbn; lia
      | | apply trace_after_credential].
    intros pre t post E.
    destruct apiKeyOptional; destruct pre as [|a [|b pre']]; simplify_eq/=.
  - set (upload := upload_request (credential env apiKeyOptional) ct req)
      in *.
    fold t0 in Hdo.
    assert (Hw1 : trace w1
                  = trace w ++ credential_events apiKeyOptional
                    ++ [EvDo t0 upload]).
    { rewrite (client_Do_trace _ _ _ _ _ _ Hdo), trace_after_credential.
      now rewrite <- app_assoc. }
    assert (Hstop : forall e,
      (exists e', Return (Err e) = Return (Err e')) /\
      exists evs',
        trace w1 = trace w ++ evs' /\ sleeps evs' = [] /\
        (length (requests evs') <= 1)%nat /\
        (forall pre t post,
           evs' = pre ++ EvNow t :: post ->
           (exists e', post = [EvSince e'] /\ t0 < e')
           /\ Return (Err e) = Return (Err ErrTimeoutReached))).
    { intros e.
      apply (Hquiet (credential_events apiKeyOptional ++ [EvDo t0 upload]));
        [now destruct apiKeyOptional
        | destruct apiKeyOptional; cbn; lia
        | | exact Hw1].
      intros pre t post E.
      destruct apiKeyOptional; destruct pre as [|a [|b [|c pre']]];
        simplify_eq/=. }
    inversion Hup as [e|resp Hc|resp e Hc Hd|resp m Hc Hd Hno
                     |resp m jobID w3 x'' Hc Hd Hid Hjob]; subst;
      try apply Hstop.
    fold t0 in Hjob.
    rewrite getJobResult_no_time in Hjob by lia.
    injection Hjob as <- <-. split; [eauto|].
    set (e0 := saturate64 (Z.pos (clock_step env w1))).
    assert (He0 : t0 < e0) by (unfold e0, saturate64; lia).
    exists (credential_events apiKeyOptional
            ++ [EvDo t0 upload; EvNow (now w1); EvSince e0]).
    split.
    { rewrite trace_log, trace_advance, trace_log, Hw1, <- !app_assoc.
      reflexivity. }
    split; [now destruct apiKeyOptional|].
    split; [destruct apiKeyOptional; cbn; lia|].
    intros pre t post E.
    destruct apiKeyOptional; destruct pre as [|a [|b [|c [|d pre']]]];
      simplify_eq/=; try (now destruct pre');
      (split; [exists e0; now split | reflexivity]).
Qed.

(** A timeout of zero seconds: the upload, sent by a client without a
    deadline, is answered, and the first check ends the run. *)
Example Parse_zero_timeout :
  let run :=
    Parse (Mock.env_of (Mock.succeeds_at 1)) 5 Mock.file1 MARKDOWN (Some "sk")
          None (Some 0) None Mock.w0 in
  snd run = inl (Return (Err ErrTimeoutReached)) /\
  length (requests (trace (fst run))) = 1%nat /\
  sleeps (trace (fst run)) = [] /\
  last (trace (fst run)) = Some (EvSince 50).
Proof. vm_compute. repeat split; reflexivity. Qed.

Lemma Parse_negative_timeout_witness :
  let run :=
    Parse (Mock.env_of (Mock.succeeds_at 1)) 5 Mock.file1 MARKDOWN (Some "sk")
          None (Some 9223372037) None Mock.w0 in
  seconds 9223372037 = -9223372036709551616 /\
  snd run = inl (Return (Err ErrTimeoutReached)) /\
  exists evs,
    trace (fst run) = trace Mock.w0 ++ evs /\
    sleeps evs = [] /\ (length (requests evs) <= 1)%nat.
Proof.
  intros run. split; [reflexivity|]. split; [vm_compute; reflexivity|].
  destruct (Parse_negative_timeout (Mock.env_of (Mock.succeeds_at 1)) 4
              Mock.file1 MARKDOWN (Some "sk") None (Some 9223372037) None
              Mock.w0 (fst run) (Return (Err ErrTimeoutReached)))
    as (_ & evs & Ht & Hs & Hr & _).
  - vm_compute. reflexivity.
  - vm_compute. reflexivity.
  - exists evs. auto.
Defined.

(** ** The requests of the poll loop *)

Lemma loop_events_shape t sreq rreq timeout ci evs x :
  loop_events t sreq rreq timeout ci evs x ->
  exists n,
    requests evs = replicate n sreq \/
    (requests evs = replicate (S n) sreq ++ [rreq] /\ exists r, x = Return r).
Proof.
  induction 1 as [|evs x Hp|evs evs' x Hp Hl IH].
  - exists 0%nat. now left.
  - inversion Hp; subst.
    + exists 0%nat. now left.
    + exists 0%nat. now left.
    + exists 1%nat. now left.
    + exists 0%nat. right. split; [reflexivity | eauto].
  - inversion Hp; subst. destruct IH as [n [IH|[IH Hx]]]; exists (S n).
    + left. rewrite requests_app, IH. reflexivity.
    + right. split; [|exact Hx]. rewrite requests_app, IH. reflexivity.
Qed.

(** X10: whatever happens, [getJobResult] reads the clock first, never
    reads the environment, and sends nothing but status requests, followed
    by at most one result request, which is then the last request of a run
    that returns and comes after at least one status request; each is a GET
    without a body for the job's URL under [baseUrl], carries the bearer
    credential as its only header and is sent by a client whose timeout is
    the total timeout. *)
Theorem getJobResult_requests env fuel apiKey baseUrl jobID mode timeout
    checkInterval w w' x :
  let status :=
    {| Method := "GET";
       URL := baseUrl +:+ "/api/parsing/job/" +:+ jobID;
       Header := {[ "Authorization" := ["Bearer " +:+ apiKey] ]};
       ReqBody := None |} in
  let result :=
    {| Method := "GET";
       URL := baseUrl +:+ "/api/parsing/job/" +:+ jobID
              +:+ "/result/" +:+ mode;
       Header := {[ "Authorization" := ["Bearer " +:+ apiKey] ]};
       ReqBody := None |} in
  getJobResult env fuel apiKey baseUrl jobID mode timeout checkInterval w
  = (w', inl x) ->
  exists evs n,
    trace w' = trace w ++ EvNow (now w) :: evs /\
    env_reads evs = [] /\
    Forall (eq timeout) (client_timeouts evs) /\
    (requests evs = replicate n status \/
     requests evs = replicate (S n) status ++ [result] /\
     exists r, x = Return r).
Proof.
  intros status result H.
  apply getJobResult_events in H as (evs & Ht & Hl).
  destruct (loop_events_shape _ _ _ _ _ _ _ Hl) as [n Hshape].
  exists evs, n. split; [exact Ht|]. split; [|split].
  - exact (loop_events_env_reads _ _ _ _ _ _ _ Hl).
  - exact (loop_events_client_timeouts _ _ _ _ _ _ _ Hl).
  - exact Hshape.
Qed.

Lemma getJobResult_requests_witness :
  let run :=
    getJobResult (Mock.env_of (Mock.succeeds_at 2)) 5 "sk" BASE_URL Mock.job
                 MARKDOWN (seconds 10) (seconds 1) Mock.w0 in
  snd run = inl (Return (Ok "hello")) /\
  exists evs n,
    trace (fst run) = trace Mock.w0 ++ EvNow (now Mock.w0) :: evs /\
    env_reads evs = [] /\
    (requests evs = replicate n (status_request "sk" BASE_URL Mock.job) \/
     requests evs
     = replicate (S n) (status_request "sk" BASE_URL Mock.job)
       ++ [result_request "sk" BASE_URL Mock.job MARKDOWN]
     /\ exists r, Return (Ok "hello") = Return r).
Proof.
  intros run. split; [vm_compute; reflexivity|].
  destruct (getJobResult_requests (Mock.env_of (Mock.succeeds_at 2)) 5 "sk"
              BASE_URL Mock.job MARKDOWN (seconds 10) (seconds 1) Mock.w0
              (fst run) (Return (Ok "hello")))
    as (evs & n & Ht & Hreads & _ & Hshape).
  - vm_compute. reflexivity.
  - exists evs, n. auto.
Defined.

(** ** The example program *)

(** X11: the example program drops the error of [os.ReadFile] and passes
    neither a credential nor a timeout.  So when no byte of the file could
    be read, it panics with [ErrEmptyFile], not with the error of the
    read, and nothing is read from the environment or sent; and when the
    file has bytes but the environment holds no credential, it panics with
    [ErrNoAPIKey] and nothing is sent. *)
Theorem main_panics_before_the_upload env fuel os_ReadFile w :
  (fst (os_ReadFile example.FILENAME) = [] ->
   example.main env fuel os_ReadFile w
   = (w, example.Panicked ErrEmptyFile)) /\
  (fst (os_ReadFile example.FILENAME) <> [] ->
   getenv env API_KEY_VARIABLE = "" ->
   exists w',
     example.main env fuel os_ReadFile w
     = (w', example.Panicked ErrNoAPIKey) /\
     trace w' = trace w ++ [EvGetenv API_KEY_VARIABLE]).
Proof.
  unfold example.main.
  destruct (os_ReadFile example.FILENAME) as [file err]. cbn [fst].
  split.
  - intros ->. reflexivity.
  - intros Hfile Hunset.
    rewrite (outcome_return _ _ _ _
               (Parse_no_key env fuel file MARKDOWN None None None None w
                             Hfile eq_refl Hunset)).
    eexists. split; reflexivity.
Qed.

Lemma main_panics_before_the_upload_witness :
  let missing := fun _ : string =>
    (@nil byte, Some "open somatosensory.pdf: no such file or directory") in
  let present := fun _ : string => (Mock.file1, @None string) in
  let env := Mock.env_of (Mock.succeeds_at 1) in
  example.main env 5 missing Mock.w0
  = (Mock.w0, example.Panicked ErrEmptyFile) /\
  exists w',
    example.main env 5 present Mock.w0 = (w', example.Panicked ErrNoAPIKey) /\
    trace w' = trace Mock.w0 ++ [EvGetenv API_KEY_VARIABLE].
Proof.
  intros missing present env. split.
  - apply (proj1 (main_panics_before_the_upload env 5%nat missing Mock.w0)).
    reflexivity.
  - apply (proj2 (main_panics_before_the_upload env 5%nat present Mock.w0)).
    + discriminate.
    + reflexivity.
Defined.

(** X12: the example program ends: whatever the file, the environment and
    the server, after at most 2001 passes of the poll loop it has panicked
    or printed, with the same ending for any fuel above 2001; and what it
    prints is the string [Parse] returned followed by a newline. *)
Theorem main_ends env os_ReadFile w :
  exists w' ending,
    ending <> example.Running /\
    (forall fuel,
       (2001 < fuel)%nat ->
       example.main env fuel os_ReadFile w = (w', ending)) /\
    (forall out,
       ending = example.Printed out ->
       exists s,
         out = s +:+ example.newline /\
         forall fuel,
           (2001 < fuel)%nat ->
           outcome (Parse env fuel (fst (os_ReadFile example.FILENAME))
                          MARKDOWN None None None None) w
           = (w', Some (Ok s))).
Proof.
  unfold example.main.
  destruct (os_ReadFile example.FILENAME) as [file err]. cbn [fst].
  destruct (Parse_bounded env file MARKDOWN None None None None w 2001)
    as (w' & r & Hrun & _).
  - vm_compute. reflexivity.
  - vm_compute. reflexivity.
  - destruct r as [s|e].
    + exists w', (example.Printed (s +:+ example.newline)).
      split; [discriminate|]. split.
      * intros fuel Hfuel. now rewrite (Hrun fuel Hfuel).
      * intros out [= <-]. exists s. split; [reflexivity | exact Hrun].
    + exists w', (example.Panicked e).
      split; [discriminate|]. split.
      * intros fuel Hfuel. now rewrite (Hrun fuel Hfuel).
      * discriminate.
Qed.

(** ** The pace of the requests *)

Lemma sleeps_app a b : sleeps (a ++ b) = sleeps a ++ sleeps b.
Proof. apply omap_app. Qed.

Lemma pass_pace env client headers statusURL resultURL mode timeout ci
    start w w' x :
  getJobResult_pass env client headers statusURL resultURL mode timeout ci
                    start w = (w', inl x) ->
  exists evs,
    trace w' = trace w ++ evs /\
    now w + Z.of_nat (length (sleeps evs)) * Z.max 0 ci <= now w' /\
    (length (requests evs)
     <= length (sleeps evs) + if x is Continue then 0 else 1)%nat.
Proof.
  intros H. apply pass_path_sound in H.
  pose proof (slept_clock env ci start w) as Hslept.
  pose proof (slept_trace env ci start w) as Htr.
  assert (Hdone : forall w3 (c : Client) req (r : result Response),
            client_Do (X:=loop_exit) env c req (slept env ci start w)
            = (w3, inr r) ->
            trace w3
            = trace w ++ [EvSince (saturate64 (now w - start)); EvSleep ci;
                          EvDo (Timeout c) req]
            /\ now w + Z.max 0 ci <= now w3).
  { intros w3 c req r Hdo. split.
    - rewrite (client_Do_trace _ _ _ _ _ _ Hdo), Htr, <- app_assoc.
      reflexivity.
    - apply client_Do_clock in Hdo. lia. }
  inversion H as [Hlt|e Hle Hreq|req w3 e Hle Hreq Hdo
                 |req w3 resp Hle Hreq Hdo Hc
                 |req w3 resp e Hle Hreq Hdo Hc Hd
                 |req w3 resp m Hle Hreq Hdo Hc Hd Hs
                 |req w3 resp m w4 r Hle Hreq Hdo Hc Hd Hs Hfetch]; subst.
  - eexists. split; [apply trace_log|]. cbn. split; lia.
  - eexists. split; [exact Htr|]. cbn. split; lia.
  - destruct (Hdone _ _ _ _ Hdo) as [Ht Hn].
    eexists. split; [exact Ht|]. cbn. split; lia.
  - destruct (Hdone _ _ _ _ Hdo) as [Ht Hn].
    eexists. split; [exact Ht|]. cbn. split; lia.
  - destruct (Hdone _ _ _ _ Hdo) as [Ht Hn].
    eexists. split; [exact Ht|]. cbn. split; lia.
  - destruct (Hdone _ _ _ _ Hdo) as [Ht Hn].
    eexists. split; [exact Ht|]. cbn. split; lia.
  - destruct (Hdone _ _ _ _ Hdo) as [Ht Hn].
    inversion Hfetch as [e' Hreq'|req' w5 e' Hreq' Hdo'
                        |req' w5 resp' Hreq' Hdo' Hc'
                        |req' w5 resp' e' Hreq' Hdo' Hc' Hd'
                        |req' w5 resp' m' Hreq' Hdo' Hc' Hd' Hno
                        |req' w5 resp' m' s Hreq' Hdo' Hc' Hd' Hs']; subst.
    1:{ eexists. split; [exact Ht|]. cbn. split; lia. }
    all: pose proof (client_Do_clock _ _ _ _ _ _ Hdo') as Hn';
      eexists; (split;
        [rewrite (client_Do_trace _ _ _ _ _ _ Hdo'), Ht, <- app_assoc;
         reflexivity|]); cbn; split; lia.
Qed.

Lemma for_ever_pace env client headers statusURL resultURL mode timeout ci
    start fuel w w' x :
  for_ever fuel
    (getJobResult_pass env client headers statusURL resultURL mode timeout ci
                       start) w = (w', inl x) ->
  exists evs,
    trace w' = trace w ++ evs /\
    now w + Z.of_nat (length (sleeps evs)) * Z.max 0 ci <= now w' /\
    (length (requests evs) <= length (sleeps evs) + 1)%nat.
Proof.
  revert w. induction fuel as [|fuel IH]; intros w; simpl.
  - intros [= <- <-]. exists []. rewrite app_nil_r. cbn. split; [done|lia].
  - destruct (getJobResult_pass _ _ _ _ _ _ _ _ _ w) as [w1 [[|y]|v]] eqn:E;
      [| |destruct v].
    + intros H. apply pass_pace in E as (evs1 & Ht1 & Hn1 & Hr1).
      apply IH in H as (evs2 & Ht2 & Hn2 & Hr2).
      exists (evs1 ++ evs2). split; [now rewrite Ht2, Ht1, app_assoc|].
      rewrite sleeps_app, requests_app, !length_app. split; [|lia].
      rewrite Nat2Z.inj_add. lia.
    + intros [= <- <-]. apply pass_pace in E as (evs & Ht & Hn & Hr).
      exists evs. split; [exact Ht|]. split; [exact Hn | lia].
Qed.

(** X13: [Parse] sends at most one status request per poll interval.  In
    every run, each status request is paid for by a sleep of the poll
    interval before it (the requests of a run are at most its sleeps plus
    two, the upload and the result request), and the clock moves by at
    least the time slept: a run that has sent [n + 2] requests has taken at
    least [n] poll intervals. *)
Theorem Parse_pace env fuel file mode apiKeyOptional languageOptional
    timeoutSecondsOptional checkIntervalSecondsOptional w w' x :
  let interval :=
    seconds (or_default DEFAULT_CHECK_INTERVAL_SECONDS
                        checkIntervalSecondsOptional) in
  Parse env fuel file mode apiKeyOptional languageOptional
        timeoutSecondsOptional checkIntervalSecondsOptional w = (w', inl x) ->
  exists evs,
    trace w' = trace w ++ evs /\
    Forall (eq interval) (sleeps evs) /\
    (length (requests evs) <= length (sleeps evs) + 2)%nat /\
    now w + Z.of_nat (length (sleeps evs)) * Z.max 0 interval <= now w'.
Proof.
  intros interval H. pose proof H as Hev.
  apply Parse_events in Hev as (evs & Ht & Hp).
  exists evs. split; [exact Ht|]. split.
  { exact (parse_events_sleeps _ _ _ _ _ _ _ Hp). }
  clear Hp. apply parse_path_sound in H.
  assert (Hquiet : forall w0',
            trace w0' = trace w ++ evs -> sleeps (trace w0') = sleeps (trace w) ->
            (length (requests (trace w0')) <= length (requests (trace w)) + 1)%nat ->
            now w <= now w0' ->
            (length (requests evs) <= length (sleeps evs) + 2)%nat /\
            now w + Z.of_nat (length (sleeps evs)) * Z.max 0 interval
            <= now w0').
  { intros w0' Ht' Hs Hr Hn. rewrite Ht' in Hs, Hr.
    rewrite sleeps_app in Hs. rewrite requests_app, length_app in Hr.
    rewrite <- (app_nil_r (sleeps (trace w))) in Hs at 2.
    apply app_inv_head in Hs. rewrite Hs. cbn. split; lia. }
  inversion H as [Hfile|Hfile Hnone Hunset|body ct e Hfile Hkey Hform Hreq
                 |body ct req w1 r w'' x' Hfile Hkey Hform Hreq Hdo Hup];
    subst.
  - apply Hquiet; [exact Ht | reflexivity | lia | lia].
  - apply Hquiet; [exact Ht | | | cbn; lia];
      rewrite trace_log; [rewrite sleeps_app | rewrite requests_app];
      cbn; rewrite ?app_nil_r; [reflexivity | lia].
  - apply Hquiet; [exact Ht | | | destruct apiKeyOptional; cbn; lia];
      rewrite trace_after_credential;
      [rewrite sleeps_app | rewrite requests_app];
      destruct apiKeyOptional; cbn; rewrite ?app_nil_r;
      try reflexivity; lia.
  - assert (Hs1 : sleeps (trace w1) = sleeps (trace w)).
    { rewrite (client_Do_trace _ _ _ _ _ _ Hdo), trace_after_credential.
      rewrite !sleeps_app. destruct apiKeyOptional; cbn;
        now rewrite ?app_nil_r. }
    assert (Hr1 : length (requests (trace w1))
                  = (length (requests (trace w)) + 1)%nat).
    { rewrite (client_Do_trace _ _ _ _ _ _ Hdo), requests_app, length_app.
      now rewrite requests_after_credential. }
    assert (Hn1 : now w <= now w1).
    { apply client_Do_clock in Hdo.
      destruct apiKeyOptional; cbn in Hdo; lia. }
    inversion Hup as [e|resp Hc|resp e Hc Hd|resp m Hc Hd Hno
                     |resp m jobID w3 x'' Hc Hd Hid Hjob]; subst;
      try (apply Hquiet; [exact Ht | exact Hs1 | lia | exact Hn1]).
    rewrite getJobResult_unfold in Hjob.
    apply for_ever_pace in Hjob as (evs' & Ht' & Hn' & Hr').
    rewrite trace_advance, trace_log in Ht'. cbn [now log advance] in Hn'.
    assert (Hsl : sleeps evs = sleeps evs').
    { apply (f_equal sleeps) in Ht'. rewrite Ht in Ht'.
      rewrite !sleeps_app, Hs1 in Ht'. cbn in Ht'.
      rewrite app_nil_r in Ht'. now apply app_inv_head in Ht'. }
    assert (Hrl : length (requests evs)
                  = (1 + length (requests evs'))%nat).
    { apply (f_equal (fun l => length (requests l))) in Ht'.
      rewrite Ht in Ht'. rewrite !requests_app, !length_app, Hr1 in Ht'.
      cbn in Ht'. lia. }
    rewrite Hsl, Hrl. split; lia.
Qed.

Lemma Parse_pace_witness :
  let run :=
    Parse (Mock.env_of (Mock.succeeds_at 3)) 5 Mock.file1 MARKDOWN (Some "sk")
          None None (Some 2) Mock.w0 in
  snd run = inl (Return (Ok "hello")) /\
  length (requests (trace (fst run))) = 5%nat /\
  now (fst run) = 6500000050 /\
  exists evs,
    trace (fst run) = trace Mock.w0 ++ evs /\
    Forall (eq (seconds 2)) (sleeps evs) /\
    now Mock.w0 + Z.of_nat (length (sleeps evs)) * Z.max 0 (seconds 2)
    <= now (fst run).
Proof.
  intros run. split; [vm_compute; reflexivity|].
  split; [vm_compute; reflexivity|]. split; [vm_compute; reflexivity|].
  destruct (Parse_pace (Mock.env_of (Mock.succeeds_at 3)) 5 Mock.file1
              MARKDOWN (Some "sk") None None (Some 2) Mock.w0 (fst run)
              (Return (Ok "hello")))
    as (evs & Ht & Hs & _ & Hn).
  - vm_compute. reflexivity.
  - exists evs. auto.
Defined.
